(** * Gang-of-Four pattern scripts: Command, State and Memento

    A shallow embedding of three scripts of the pattern catalogue:
      - [Behavioral/command.py]  (TextEditor, the two commands, CommandInvoker),
      - [Behavoral/state.py]     (MediaPlayers and its three state classes),
      - [Behavioral/memento.py]  (FormState and HistoryManager),
    together with the properties their specification states about them.

    Python values are modelled as follows.  An [int] is a [Z]; a [str] is a
    [string], one [ascii] standing for one character; a [list] keeps Python's
    order, so [append] adds at the right end and [pop] removes the right-most
    element; [Optional[str]] is [option string].  Objects that are shared and
    mutated live in a store indexed by references.  [print] appends one line
    to the standard output carried by the store.  Operations that can raise in
    Python ([list.pop], [list[-1]]) raise in the model too. *)

From Stdlib Require Import String Ascii ZArith List Lia Bool Arith DecimalString.
Import ListNotations.

Open Scope string_scope.
Open Scope Z_scope.

(* ================================================================== *)
(** * Python primitives *)
(* ================================================================== *)

Module Python.

(** ** Strings and slices *)

(** [len(s)] *)
Definition len (s : string) : Z := Z.of_nat (String.length s).

(** [str(n)] for the length of a list, as an f-string renders it. *)
Definition str_of_nat (n : nat) : string :=
  NilEmpty.string_of_uint (Nat.to_uint n).

(** How a slice bound is adjusted against a sequence of length [n]: a negative
    bound counts from the right end, and the result is clipped to [0..n]. *)
Definition adjust_index (n i : Z) : Z :=
  if i <? 0 then (if i + n <? 0 then 0 else i + n)
  else (if n <=? i then n else i).

(** [s[start:stop]], a missing bound being [None]. *)
Definition slice (s : string) (start stop : option Z) : string :=
  let n := len s in
  let i := match start with None => 0 | Some i => adjust_index n i end in
  let j := match stop with None => n | Some j => adjust_index n j end in
  substring (Z.to_nat i) (Z.to_nat (j - i)) s.

(** ** Lists *)

(** Truth value of a list: the empty list is falsy. *)
Definition truthy {A : Type} (l : list A) : bool :=
  match l with [] => false | _ :: _ => true end.

(** [l.append(x)] *)
Definition append {A : Type} (l : list A) (x : A) : list A := l ++ [x].

(** The exception the modelled list operations can raise. *)
Inductive Exception : Type :=
| IndexError (msg : string).

(** [l.pop()]: the last element and the list without it, or [IndexError]. *)
Definition pop {A : Type} (l : list A) : Exception + (A * list A) :=
  match rev l with
  | [] => inl (IndexError "pop from empty list")
  | x :: r => inr (x, rev r)
  end.

(** [l[-1]]: the last element, or [IndexError]. *)
Definition last_item {A : Type} (l : list A) : Exception + A :=
  match rev l with
  | [] => inl (IndexError "list index out of range")
  | x :: _ => inr x
  end.

(** ** Statements: state passing with exceptions

    A statement run from a store [w] either returns a value and the new
    store, or raises and leaves the store as it was at the raise. *)

Inductive Result (W A : Type) : Type :=
| Ok (a : A) (w : W)
| Raise (e : Exception) (w : W).
Arguments Ok {W A} a w.
Arguments Raise {W A} e w.

Definition Py (W A : Type) : Type := W -> Result W A.

Definition ret {W A : Type} (a : A) : Py W A := fun w => Ok a w.

Definition bind {W A B : Type} (m : Py W A) (k : A -> Py W B) : Py W B :=
  fun w => match m w with
           | Ok a w' => k a w'
           | Raise e w' => Raise e w'
           end.

Definition raise {W A : Type} (e : Exception) : Py W A := fun w => Raise e w.

(** Lifts a list operation that may raise. *)
Definition lift {W A : Type} (r : Exception + A) : Py W A :=
  match r with inl e => raise e | inr a => ret a end.

(** [raises r]: the call ended with an exception reaching the caller. *)
Definition raises {W A : Type} (r : Result W A) : Prop :=
  exists e w, r = Raise e w.

(** [returns r]: the call returned normally. *)
Definition returns {W A : Type} (r : Result W A) : Prop :=
  exists a w, r = Ok a w.

(** ** References and stores of objects *)

Definition ref : Type := nat.

Definition upd {A : Type} (h : ref -> A) (r : ref) (v : A) : ref -> A :=
  fun r' => if Nat.eqb r' r then v else h r'.

End Python.

Export Python.

Declare Scope py_scope.
Delimit Scope py_scope with py.
Notation "x <- m ;; k" := (bind m (fun x => k))
  (at level 61, m at next level, right associativity) : py_scope.
Notation "m ;; k" := (bind m (fun _ => k))
  (at level 61, right associativity) : py_scope.

Local Open Scope py_scope.

(* ================================================================== *)
(** * Behavioral/command.py *)
(* ================================================================== *)

Module Command.

(** ** Objects *)

(** [TextEditor], the receiver. *)
Record TextEditor : Type := { content : string }.

(** The two concrete command classes.  A command holds a reference to its
    editor; a delete command also holds [_deleted_text], [None] until its
    first [execute]. *)
Inductive Command : Type :=
| InsertTextCommand (_editor : ref) (_text : string) (_position : Z)
| DeleteTextCommand (_editor : ref) (_start _end : Z)
                    (_deleted_text : option string).

(** [CommandInvoker]: two lists of references to commands. *)
Record CommandInvoker : Type :=
  { _history : list ref; _redo_stack : list ref }.

(** The store: the objects of each class, the next free reference, and the
    lines printed so far. *)
Record World : Type :=
  { editors : ref -> TextEditor;
    commands : ref -> Command;
    invokers : ref -> CommandInvoker;
    next_ref : ref;
    stdout : list string }.

Definition M : Type -> Type := Py World.

(** ** Access to the store *)

Definition print (line : string) : M unit :=
  fun w => Ok tt {| editors := editors w; commands := commands w;
                    invokers := invokers w; next_ref := next_ref w;
                    stdout := stdout w ++ [line] |}.

Definition fresh : M ref :=
  fun w => Ok (next_ref w)
              {| editors := editors w; commands := commands w;
                 invokers := invokers w; next_ref := S (next_ref w);
                 stdout := stdout w |}.

Definition get_content (editor : ref) : M string :=
  fun w => Ok (content (editors w editor)) w.

Definition set_content (editor : ref) (c : string) : M unit :=
  fun w => Ok tt {| editors := upd (editors w) editor {| content := c |};
                    commands := commands w; invokers := invokers w;
                    next_ref := next_ref w; stdout := stdout w |}.

Definition get_command (r : ref) : M Command :=
  fun w => Ok (commands w r) w.

Definition set_command (r : ref) (c : Command) : M unit :=
  fun w => Ok tt {| editors := editors w;
                    commands := upd (commands w) r c;
                    invokers := invokers w;
                    next_ref := next_ref w; stdout := stdout w |}.

Definition get_invoker (r : ref) : M CommandInvoker :=
  fun w => Ok (invokers w r) w.

Definition set_invoker (r : ref) (i : CommandInvoker) : M unit :=
  fun w => Ok tt {| editors := editors w; commands := commands w;
                    invokers := upd (invokers w) r i;
                    next_ref := next_ref w; stdout := stdout w |}.

(** ** TextEditor *)

(** [TextEditor(content)] *)
Definition TextEditor_init (content0 : string) : M ref :=
  self <- fresh ;;
  set_content self content0 ;;
  c <- get_content self ;;
  print ("EDITOR: Initial content: '" ++ c ++ "'") ;;
  ret self.

(** [self.content = self.content[:position] + text + self.content[position:]] *)
Definition insert_text (self : ref) (text : string) (position : Z) : M unit :=
  c <- get_content self ;;
  set_content self
    (slice c None (Some position) ++ text ++ slice c (Some position) None).

(** [delete_text]: returns the removed text. *)
Definition delete_text (self : ref) (start end_ : Z) : M string :=
  c <- get_content self ;;
  let deleted_text := slice c (Some start) (Some end_) in
  set_content self (slice c None (Some start) ++ slice c (Some end_) None) ;;
  ret deleted_text.

(** ** InsertTextCommand *)

Definition InsertTextCommand_init (editor : ref) (text : string)
    (position : Z) : M ref :=
  self <- fresh ;;
  set_command self (InsertTextCommand editor text position) ;;
  ret self.

Definition InsertTextCommand_execute (editor : ref) (text : string)
    (position : Z) : M unit :=
  insert_text editor text position ;;
  c <- get_content editor ;;
  print ("COMMAND: Executed Insert('" ++ text ++ "') -> '" ++ c ++ "'").

Definition InsertTextCommand_undo (editor : ref) (text : string)
    (position : Z) : M unit :=
  _ <- delete_text editor position (position + len text) ;;
  c <- get_content editor ;;
  print ("COMMAND: Undone Insert -> '" ++ c ++ "'").

(** ** DeleteTextCommand *)

Definition DeleteTextCommand_init (editor : ref) (start end_ : Z) : M ref :=
  self <- fresh ;;
  set_command self (DeleteTextCommand editor start end_ None) ;;
  ret self.

(** [execute] stores the removed text in the command object [self]. *)
Definition DeleteTextCommand_execute (self editor : ref) (start end_ : Z)
    : M unit :=
  d <- delete_text editor start end_ ;;
  set_command self (DeleteTextCommand editor start end_ (Some d)) ;;
  c <- get_content editor ;;
  print ("COMMAND: Executed Delete('" ++ d ++ "') -> '" ++ c ++ "'").

(** [undo] does nothing at all while [_deleted_text] is [None]. *)
Definition DeleteTextCommand_undo (editor : ref) (start : Z)
    (deleted_text : option string) : M unit :=
  match deleted_text with
  | Some d =>
      insert_text editor d start ;;
      c <- get_content editor ;;
      print ("COMMAND: Undone Delete -> '" ++ c ++ "'")
  | None => ret tt
  end.

(** ** Dynamic dispatch of [command.execute()] and [command.undo()] *)

Definition Command_execute (self : ref) : M unit :=
  cmd <- get_command self ;;
  match cmd with
  | InsertTextCommand editor text position =>
      InsertTextCommand_execute editor text position
  | DeleteTextCommand editor start end_ _ =>
      DeleteTextCommand_execute self editor start end_
  end.

Definition Command_undo (self : ref) : M unit :=
  cmd <- get_command self ;;
  match cmd with
  | InsertTextCommand editor text position =>
      InsertTextCommand_undo editor text position
  | DeleteTextCommand editor start _ deleted_text =>
      DeleteTextCommand_undo editor start deleted_text
  end.

(** ** CommandInvoker *)

Definition CommandInvoker_init : M ref :=
  self <- fresh ;;
  set_invoker self {| _history := []; _redo_stack := [] |} ;;
  ret self.

(** [self._history.append(command)] *)
Definition history_append (self command : ref) : M unit :=
  inv <- get_invoker self ;;
  set_invoker self {| _history := append (_history inv) command;
                      _redo_stack := _redo_stack inv |}.

(** [self._history.pop()] *)
Definition history_pop (self : ref) : M ref :=
  inv <- get_invoker self ;;
  popped <- lift (pop (_history inv)) ;;
  set_invoker self {| _history := snd popped;
                      _redo_stack := _redo_stack inv |} ;;
  ret (fst popped).

(** [self._redo_stack.append(command)] *)
Definition redo_stack_append (self command : ref) : M unit :=
  inv <- get_invoker self ;;
  set_invoker self {| _history := _history inv;
                      _redo_stack := append (_redo_stack inv) command |}.

(** [self._redo_stack.pop()] *)
Definition redo_stack_pop (self : ref) : M ref :=
  inv <- get_invoker self ;;
  popped <- lift (pop (_redo_stack inv)) ;;
  set_invoker self {| _history := _history inv;
                      _redo_stack := snd popped |} ;;
  ret (fst popped).

(** [self._redo_stack.clear()] *)
Definition redo_stack_clear (self : ref) : M unit :=
  inv <- get_invoker self ;;
  set_invoker self {| _history := _history inv; _redo_stack := [] |}.

Definition sizes_line (prefix : string) (inv : CommandInvoker) : string :=
  prefix ++ " successful. History size: "
         ++ str_of_nat (length (_history inv))
         ++ ". Redo size: " ++ str_of_nat (length (_redo_stack inv)).

Definition execute_command (self command : ref) : M unit :=
  Command_execute command ;;
  history_append self command ;;
  redo_stack_clear self ;;
  inv <- get_invoker self ;;
  print ("INVOKER: Command executed and saved to history. History size: "
           ++ str_of_nat (length (_history inv))).

Definition cannot_undo : string := "INVOKER: Cannot undo. History is empty.".
Definition cannot_redo : string := "INVOKER: Cannot redo. Redo stack is empty.".

Definition CommandInvoker_undo (self : ref) : M unit :=
  inv <- get_invoker self ;;
  if negb (truthy (_history inv)) then
    print cannot_undo
  else
    command <- history_pop self ;;
    Command_undo command ;;
    redo_stack_append self command ;;
    inv <- get_invoker self ;;
    print (sizes_line "INVOKER: Undo" inv).

Definition CommandInvoker_redo (self : ref) : M unit :=
  inv <- get_invoker self ;;
  if negb (truthy (_redo_stack inv)) then
    print cannot_redo
  else
    command <- redo_stack_pop self ;;
    Command_execute command ;;
    history_append self command ;;
    inv <- get_invoker self ;;
    print (sizes_line "INVOKER: Redo" inv).

(** ** The script's client code *)

(** The store a fresh interpreter starts from: nothing allocated, nothing
    printed. *)
Definition empty_world : World :=
  {| editors := fun _ => {| content := "" |};
     commands := fun _ => InsertTextCommand 0%nat "" 0;
     invokers := fun _ => {| _history := []; _redo_stack := [] |};
     next_ref := 0%nat;
     stdout := [] |}.

(** A printed header that starts with a newline character. *)
Definition header (title : string) : string :=
  String (ascii_of_nat 10) title.

(** Lines 128 to 152; the editor and the invoker are returned so that the
    final state can be inspected. *)
Definition main : M (ref * ref) :=
  editor <- TextEditor_init "The quick brown fox." ;;
  invoker <- CommandInvoker_init ;;
  insert_cmd_1 <- InsertTextCommand_init editor "lazy " 4 ;;
  execute_command invoker insert_cmd_1 ;;
  delete_cmd_1 <- DeleteTextCommand_init editor 14 20 ;;
  execute_command invoker delete_cmd_1 ;;
  print (header "--- UNDO 1 (Reverses Delete) ---") ;;
  CommandInvoker_undo invoker ;;
  print (header "--- UNDO 2 (Reverses Insert) ---") ;;
  CommandInvoker_undo invoker ;;
  print (header "--- REDO 1 (Reapplies Insert) ---") ;;
  CommandInvoker_redo invoker ;;
  print (header "--- REDO 2 (Reapplies Delete) ---") ;;
  CommandInvoker_redo invoker ;;
  ret (editor, invoker).

(** ** Client loops and conditions used to state the properties *)

(** [for command in cmds: invoker.execute_command(command)] *)
Fixpoint execute_all (invoker : ref) (cmds : list ref) : M unit :=
  match cmds with
  | [] => ret tt
  | command :: rest =>
      execute_command invoker command ;; execute_all invoker rest
  end.

(** [for _ in range(n): invoker.undo()] *)
Fixpoint undo_times (invoker : ref) (n : nat) : M unit :=
  match n with
  | O => ret tt
  | S n' => CommandInvoker_undo invoker ;; undo_times invoker n'
  end.

(** The editor a command is bound to. *)
Definition editor_of (cmd : Command) : ref :=
  match cmd with
  | InsertTextCommand editor _ _ => editor
  | DeleteTextCommand editor _ _ _ => editor
  end.

(** What [execute] of the command object [cmd] makes of a content [c], and
    what it makes of the command object itself. *)
Definition executed_content (cmd : Command) (c : string) : string :=
  match cmd with
  | InsertTextCommand _ text position =>
      slice c None (Some position) ++ text ++ slice c (Some position) None
  | DeleteTextCommand _ start end_ _ =>
      slice c None (Some start) ++ slice c (Some end_) None
  end.

Definition executed_command (cmd : Command) (c : string) : Command :=
  match cmd with
  | InsertTextCommand _ _ _ => cmd
  | DeleteTextCommand editor start end_ _ =>
      DeleteTextCommand editor start end_
        (Some (slice c (Some start) (Some end_)))
  end.

(** What [undo] of the command object [cmd] makes of a content [c]. *)
Definition undone_content (cmd : Command) (c : string) : string :=
  match cmd with
  | InsertTextCommand _ text position =>
      slice c None (Some position)
        ++ slice c (Some (position + len text)) None
  | DeleteTextCommand _ start _ (Some d) =>
      slice c None (Some start) ++ d ++ slice c (Some start) None
  | DeleteTextCommand _ _ _ None => c
  end.

(** A command is in range for a content [c] when slicing clips none of its
    bounds in a way that loses text: an insertion point lies inside [c], and
    a deletion has [0 <= start <= end]. *)
Definition in_range (c : string) (cmd : Command) : bool :=
  match cmd with
  | InsertTextCommand _ _ position =>
      (0 <=? position) && (position <=? len c)
  | DeleteTextCommand _ start end_ _ =>
      (0 <=? start) && (start <=? end_)
  end.

(** The command object [r] is in range for the present content of its own
    editor. *)
Definition in_range_now (w : World) (r : ref) : bool :=
  in_range (content (editors w (editor_of (commands w r)))) (commands w r).

(** [w'] is [w] with one more printed line and nothing else changed. *)
Definition only_printed (line : string) (w w' : World) : Prop :=
  editors w' = editors w /\ commands w' = commands w /\
  invokers w' = invokers w /\ next_ref w' = next_ref w /\
  stdout w' = (stdout w ++ [line])%list.

(** [len(self._history) + len(self._redo_stack)] *)
Definition stack_total (i : CommandInvoker) : nat :=
  (length (_history i) + length (_redo_stack i))%nat.

(** Every command of [cmds] is in range at the moment the invoker executes
    it, the run starting from [w]. *)
Fixpoint well_ranged (invoker : ref) (cmds : list ref) (w : World) : bool :=
  match cmds with
  | [] => true
  | r :: rest =>
      in_range_now w r &&
      match execute_command invoker r w with
      | Ok _ w' => well_ranged invoker rest w'
      | Raise _ _ => false
      end
  end.

(** ** Small clients *)

(** A store whose editors all hold the same text, with an insert command at
    reference 0, a delete command at reference 1 and delete commands that
    reach past the end at the other references, all bound to editor 0, and
    invokers with empty stacks. *)
Definition sample_world : World :=
  {| editors := fun _ => {| content := "The quick brown fox." |};
     commands := fun r =>
       match r with
       | O => InsertTextCommand 0%nat "lazy " 4
       | S O => DeleteTextCommand 0%nat 14 20 None
       | _ => DeleteTextCommand 0%nat 16 25 None
       end;
     invokers := fun _ => {| _history := []; _redo_stack := [] |};
     next_ref := 2%nat;
     stdout := [] |}.

(** The store a statement leaves behind. *)
Definition world_after {A : Type} (m : M A) (w : World) : World :=
  match m w with Ok _ w' => w' | Raise _ w' => w' end.

(** The sample store after invoker 0 has executed commands 0, 1 and 2 and
    undone the last of them. *)
Definition played_world : World :=
  world_after
    (execute_all 0%nat [0%nat; 1%nat; 2%nat] ;; CommandInvoker_undo 0%nat)
    sample_world.

(** Builds an editor, an invoker and one command, executes the command
    through the invoker and undoes it at once; returns the content before
    and after. *)
Definition execute_then_undo (content0 : string) (make : ref -> M ref)
    : M (string * string) :=
  editor <- TextEditor_init content0 ;;
  invoker <- CommandInvoker_init ;;
  command <- make editor ;;
  before <- get_content editor ;;
  execute_command invoker command ;;
  CommandInvoker_undo invoker ;;
  after <- get_content editor ;;
  ret (before, after).

(** Executes one and the same delete command object twice, then undoes
    twice; returns the content before and after. *)
Definition execute_twice_then_undo (content0 : string) (start end_ : Z)
    : M (string * string) :=
  editor <- TextEditor_init content0 ;;
  invoker <- CommandInvoker_init ;;
  command <- DeleteTextCommand_init editor start end_ ;;
  before <- get_content editor ;;
  execute_command invoker command ;;
  execute_command invoker command ;;
  CommandInvoker_undo invoker ;;
  CommandInvoker_undo invoker ;;
  after <- get_content editor ;;
  ret (before, after).

(** Builds a delete command and calls its [undo] although [execute] never
    ran; returns the content afterwards. *)
Definition undo_before_execute (content0 : string) (start end_ : Z)
    : M string :=
  editor <- TextEditor_init content0 ;;
  command <- DeleteTextCommand_init editor start end_ ;;
  Command_undo command ;;
  get_content editor.

(** Builds a delete command and executes it through an invoker; returns the
    text the command captured and the content afterwards. *)
Definition execute_delete (content0 : string) (start end_ : Z)
    : M (Command * string) :=
  editor <- TextEditor_init content0 ;;
  invoker <- CommandInvoker_init ;;
  command <- DeleteTextCommand_init editor start end_ ;;
  execute_command invoker command ;;
  cmd <- get_command command ;;
  c <- get_content editor ;;
  ret (cmd, c).

End Command.

(* ================================================================== *)
(** * Behavoral/state.py *)
(* ================================================================== *)

Module State.

(** The three concrete state classes.  Their instances carry no data, so a
    state object is identified with its class. *)
Inductive PlayerState : Type :=
| StoppedState
| PlayingState
| PausedState.

(** [type(state).__name__] *)
Definition class_name (s : PlayerState) : string :=
  match s with
  | StoppedState => "StoppedState"
  | PlayingState => "PlayingState"
  | PausedState => "PausedState"
  end.

(** [MediaPlayers], the context. *)
Record MediaPlayers : Type := { _state : PlayerState }.

Record World : Type :=
  { players : ref -> MediaPlayers;
    next_ref : ref;
    stdout : list string }.

Definition M : Type -> Type := Py World.

Definition print (line : string) : M unit :=
  fun w => Ok tt {| players := players w; next_ref := next_ref w;
                    stdout := stdout w ++ [line] |}.

Definition fresh : M ref :=
  fun w => Ok (next_ref w)
              {| players := players w; next_ref := S (next_ref w);
                 stdout := stdout w |}.

Definition get_player (r : ref) : M MediaPlayers :=
  fun w => Ok (players w r) w.

Definition set_player (r : ref) (p : MediaPlayers) : M unit :=
  fun w => Ok tt {| players := upd (players w) r p; next_ref := next_ref w;
                    stdout := stdout w |}.

(** ** MediaPlayers *)

Definition MediaPlayers_init : M ref :=
  self <- fresh ;;
  set_player self {| _state := StoppedState |} ;;
  p <- get_player self ;;
  print ("PLAYER: Initialized in " ++ class_name (_state p) ++ ".") ;;
  ret self.

(** The [state] property. *)
Definition state (self : ref) : M PlayerState :=
  p <- get_player self ;;
  ret (_state p).

Definition set_state (self : ref) (new_state : PlayerState) : M unit :=
  set_player self {| _state := new_state |} ;;
  print ("PLAYER: State transitioned to " ++ class_name new_state ++ ".").

(** ** The handlers of each state class *)

Definition StoppedState_play (player : ref) : M unit :=
  print "STATE: ▶️ Starting playback from the beginning." ;;
  set_state player PlayingState.

Definition StoppedState_pause (player : ref) : M unit :=
  print "STATE: ⚠️ Cannot pause when already stopped.".

Definition StoppedState_stop (player : ref) : M unit :=
  print "STATE: 🛑 Already stopped.".

Definition PlayingState_play (player : ref) : M unit :=
  print "STATE: ⚠️ Already playing.".

Definition PlayingState_pause (player : ref) : M unit :=
  print "STATE: ⏸️ Pausing playback." ;;
  set_state player PausedState.

Definition PlayingState_stop (player : ref) : M unit :=
  print "STATE: ⏹️ Stopping playback. Rewinding." ;;
  set_state player StoppedState.

Definition PausedState_play (player : ref) : M unit :=
  print "STATE: ▶️ Resuming playback from current position." ;;
  set_state player PlayingState.

Definition PausedState_pause (player : ref) : M unit :=
  print "STATE: ⚠️ Already paused.".

Definition PausedState_stop (player : ref) : M unit :=
  print "STATE: ⏹️ Stopping playback. Rewinding." ;;
  set_state player StoppedState.

(** Dynamic dispatch on the class of the state object. *)
Definition play (self : PlayerState) (player : ref) : M unit :=
  match self with
  | StoppedState => StoppedState_play player
  | PlayingState => PlayingState_play player
  | PausedState => PausedState_play player
  end.

Definition pause (self : PlayerState) (player : ref) : M unit :=
  match self with
  | StoppedState => StoppedState_pause player
  | PlayingState => PlayingState_pause player
  | PausedState => PausedState_pause player
  end.

Definition stop (self : PlayerState) (player : ref) : M unit :=
  match self with
  | StoppedState => StoppedState_stop player
  | PlayingState => PlayingState_stop player
  | PausedState => PausedState_stop player
  end.

(** ** Delegation methods of the context *)

Definition press_play (self : ref) : M unit :=
  p <- get_player self ;;
  play (_state p) self.

Definition press_pause (self : ref) : M unit :=
  p <- get_player self ;;
  pause (_state p) self.

Definition press_stop (self : ref) : M unit :=
  p <- get_player self ;;
  stop (_state p) self.

(** The three client actions. *)
Inductive Action : Type := Play | Pause | Stop.

Definition press (a : Action) (self : ref) : M unit :=
  match a with
  | Play => press_play self
  | Pause => press_pause self
  | Stop => press_stop self
  end.

(** The transition table of section 4.2 of the specification, written from
    its words: the state each cell names, a no-op cell naming the current
    state. *)
Definition table (s : PlayerState) (a : Action) : PlayerState :=
  match s, a with
  | StoppedState, Play => PlayingState
  | StoppedState, Pause => StoppedState
  | StoppedState, Stop => StoppedState
  | PlayingState, Play => PlayingState
  | PlayingState, Pause => PausedState
  | PlayingState, Stop => StoppedState
  | PausedState, Play => PlayingState
  | PausedState, Pause => PausedState
  | PausedState, Stop => StoppedState
  end.

(** The cells of the table that are marked no-op. *)
Definition is_noop (s : PlayerState) (a : Action) : bool :=
  match s, a with
  | StoppedState, Pause | StoppedState, Stop
  | PlayingState, Play | PausedState, Pause => true
  | _, _ => false
  end.

End State.

(* ================================================================== *)
(** * Behavioral/memento.py *)
(* ================================================================== *)

Module Memento.

(** [Dict[str, str]], in insertion order. *)
Definition Dict : Type := list (string * string).

(** [dict.copy()] *)
Definition copy (d : Dict) : Dict := d.

(** [FormState], the memento; it is never mutated after its creation. *)
Record FormState : Type :=
  { _state : Dict; _timestamp : string }.

Definition FormState_init (field_values : Dict) : FormState :=
  {| _state := copy field_values;
     _timestamp := "Snapshot created at [Time/Date simulation]" |}.

Definition get_saved_state (self : FormState) : Dict := copy (_state self).

(** [HistoryManager], the caretaker. *)
Record HistoryManager : Type := { _history : list FormState }.

Record World : Type :=
  { managers : ref -> HistoryManager;
    next_ref : ref;
    stdout : list string }.

Definition M : Type -> Type := Py World.

Definition print (line : string) : M unit :=
  fun w => Ok tt {| managers := managers w; next_ref := next_ref w;
                    stdout := stdout w ++ [line] |}.

Definition fresh : M ref :=
  fun w => Ok (next_ref w)
              {| managers := managers w; next_ref := S (next_ref w);
                 stdout := stdout w |}.

Definition get_history (self : ref) : M (list FormState) :=
  fun w => Ok (_history (managers w self)) w.

Definition set_history (self : ref) (h : list FormState) : M unit :=
  fun w => Ok tt {| managers := upd (managers w) self {| _history := h |};
                    next_ref := next_ref w; stdout := stdout w |}.

Definition HistoryManager_init : M ref :=
  self <- fresh ;;
  set_history self [] ;;
  ret self.

Definition save_state (self : ref) (memento : FormState) : M unit :=
  h <- get_history self ;;
  set_history self (append h memento) ;;
  h <- get_history self ;;
  print ("HISTORY: Saved Memento. Total snapshots: "
           ++ str_of_nat (length h)).

Definition cannot_undo : string :=
  "HISTORY: Cannot undo. No previous state found.".

(** [undo]: [None] when fewer than two mementos are saved; otherwise the
    last one is popped and the new last one is returned. *)
Definition undo (self : ref) : M (option FormState) :=
  h <- get_history self ;;
  if (length h <? 2)%nat then
    print cannot_undo ;;
    ret None
  else
    h <- get_history self ;;
    popped <- lift (pop h) ;;
    set_history self (snd popped) ;;
    h <- get_history self ;;
    m <- lift (last_item h) ;;
    ret (Some m).

(** ** Small clients *)

Definition empty_world : World :=
  {| managers := fun _ => {| _history := [] |};
     next_ref := 0%nat;
     stdout := [] |}.

(** The store a statement leaves behind. *)
Definition world_after {A : Type} (m : M A) (w : World) : World :=
  match m w with Ok _ w' => w' | Raise _ w' => w' end.

(** The first two snapshots the script saves: the initial form, and the form
    after the name was changed. *)
Definition snapshot_alice : FormState :=
  FormState_init [("name", "Alice"); ("email", "alice@example.com")].

Definition snapshot_bob : FormState :=
  FormState_init [("name", "Bob"); ("email", "alice@example.com")].

(** A caretaker, at reference 0, that holds exactly these two snapshots. *)
Definition two_snapshots : World :=
  world_after
    (history <- HistoryManager_init ;;
     save_state history snapshot_alice ;;
     save_state history snapshot_bob)
    empty_world.

(** The same caretaker with the initial snapshot only. *)
Definition one_snapshot : World :=
  world_after
    (history <- HistoryManager_init ;;
     save_state history snapshot_alice)
    empty_world.

End Memento.

(* ================================================================== *)
(** * Longer runs of the three scripts' objects *)
(* ================================================================== *)

(** ** Behavioral/command.py: any sequence of calls on an invoker *)

Module CommandRuns.
Import Command.

(** [for _ in range(n): invoker.redo()] *)
Fixpoint redo_times (invoker : ref) (n : nat) : M unit :=
  match n with
  | O => ret tt
  | S n' => CommandInvoker_redo invoker ;; redo_times invoker n'
  end.

(** One call a client can make on an invoker. *)
Inductive Call : Type :=
| CallExecute (command : ref)
| CallUndo
| CallRedo.

Definition call (invoker : ref) (c : Call) : M unit :=
  match c with
  | CallExecute command => execute_command invoker command
  | CallUndo => CommandInvoker_undo invoker
  | CallRedo => CommandInvoker_redo invoker
  end.

(** The calls of [cs], one after the other. *)
Fixpoint call_all (invoker : ref) (cs : list Call) : M unit :=
  match cs with
  | [] => ret tt
  | c :: rest => call invoker c ;; call_all invoker rest
  end.

(** The commands an invoker holds, in its history or its redo stack. *)
Definition stacks (w : World) (invoker : ref) : list ref :=
  (_history (invokers w invoker) ++ _redo_stack (invokers w invoker))%list.

(** Two command objects are bound to the same editor and do the same on
    [execute]: they differ at most in the text a delete command holds from
    an earlier run. *)
Definition same_parameters (c1 c2 : Command) : Prop :=
  editor_of c1 = editor_of c2 /\
  forall x, executed_content c1 x = executed_content c2 x /\
            executed_command c1 x = executed_command c2 x.

(** The sample store with, at reference 3, a delete command whose end lies
    before its start. *)
Definition reversed_world : World :=
  world_after
    (set_command 3%nat (DeleteTextCommand 0%nat 9 4 None))
    sample_world.

End CommandRuns.

(** ** Behavoral/state.py: any sequence of presses *)

Module StateRuns.
Import State.

(** [for a in actions: press(a)] on the player [self]. *)
Fixpoint press_all (self : ref) (actions : list Action) : M unit :=
  match actions with
  | [] => ret tt
  | a :: rest => press a self ;; press_all self rest
  end.

(** The line [set_state] prints. *)
Definition transition_line (s : PlayerState) : string :=
  "PLAYER: State transitioned to " ++ class_name s ++ ".".

(** A store with nothing allocated, and the store after [MediaPlayers()]. *)
Definition empty_world : World :=
  {| players := fun _ => {| _state := PausedState |};
     next_ref := 0%nat;
     stdout := [] |}.

Definition new_player_world : World :=
  match MediaPlayers_init empty_world with
  | Ok _ w => w
  | Raise _ w => w
  end.

End StateRuns.

(** ** Behavioral/memento.py: the originator *)

Module FormEditing.
Import Memento.

(** [d.get(key)] *)
Fixpoint dict_get (d : Dict) (key : string) : option string :=
  match d with
  | [] => None
  | (k, v) :: rest => if String.eqb k key then Some v else dict_get rest key
  end.

(** [d[key] = value]: an existing key keeps its place, a new key goes last. *)
Fixpoint dict_set (d : Dict) (key value : string) : Dict :=
  match d with
  | [] => [(key, value)]
  | (k, v) :: rest =>
      if String.eqb k key then (k, value) :: rest
      else (k, v) :: dict_set rest key value
  end.

(** [list(d.keys())] *)
Definition keys (d : Dict) : list string := map fst d.

(** [for (key, value) in changes: d[key] = value] *)
Definition dict_set_all (d : Dict) (changes : list (string * string)) : Dict :=
  fold_left (fun d kv => dict_set d (fst kv) (snd kv)) changes d.

(** How an f-string renders the result of [d.get(key)]. *)
Definition str_of_optional (o : option string) : string :=
  match o with Some v => v | None => "None" end.

(** [FormEditor]: a reference to the dict of field values (the dict itself
    is shared with whoever else holds the reference), and the last change. *)
Record FormEditor : Type :=
  { _field_values : ref; _last_change : string }.

(** The store: the caretakers' store with the standard output and the next
    free reference, the dict objects and the editors. *)
Record World : Type :=
  { caretakers : Memento.World;
    dicts : ref -> Dict;
    form_editors : ref -> FormEditor }.

Definition M : Type -> Type := Py World.

(** Runs a statement of the caretaker's part of the script. *)
Definition lift_caretaker {A : Type} (m : Memento.M A) : M A :=
  fun w =>
    match m (caretakers w) with
    | Ok a c => Ok a {| caretakers := c; dicts := dicts w;
                        form_editors := form_editors w |}
    | Raise e c => Raise e {| caretakers := c; dicts := dicts w;
                              form_editors := form_editors w |}
    end.

Definition print (line : string) : M unit :=
  lift_caretaker (Memento.print line).

Definition fresh : M ref := lift_caretaker Memento.fresh.

Definition get_dict (r : ref) : M Dict := fun w => Ok (dicts w r) w.

Definition set_dict (r : ref) (d : Dict) : M unit :=
  fun w => Ok tt {| caretakers := caretakers w;
                    dicts := upd (dicts w) r d;
                    form_editors := form_editors w |}.

Definition get_editor (r : ref) : M FormEditor :=
  fun w => Ok (form_editors w r) w.

Definition set_editor (r : ref) (e : FormEditor) : M unit :=
  fun w => Ok tt {| caretakers := caretakers w; dicts := dicts w;
                    form_editors := upd (form_editors w) r e |}.

(** A dict display or a [copy()]: a new dict object. *)
Definition new_dict (d : Dict) : M ref :=
  r <- fresh ;;
  set_dict r d ;;
  ret r.

Section WithRepr.

(** [str(d)] of a dict, as an f-string renders it; the quoting and escaping
    rules of [repr] are left open. *)
Variable repr_dict : Dict -> string.

(** [FormEditor(initial_values)]: the editor keeps the very dict it is
    given. *)
Definition FormEditor_init (initial_values : ref) : M ref :=
  self <- fresh ;;
  set_editor self {| _field_values := initial_values;
                     _last_change := "Initialization" |} ;;
  ret self.

(** The [state] property: the dict object itself, not a copy. *)
Definition state (self : ref) : M ref :=
  e <- get_editor self ;;
  ret (_field_values e).

Definition update_field (self : ref) (field_name new_value : string)
    : M unit :=
  e <- get_editor self ;;
  d <- get_dict (_field_values e) ;;
  set_editor self
    {| _field_values := _field_values e;
       _last_change :=
         "Changed '" ++ field_name ++ "' from '"
           ++ str_of_optional (dict_get d field_name)
           ++ "' to '" ++ new_value ++ "'" |} ;;
  e <- get_editor self ;;
  d <- get_dict (_field_values e) ;;
  set_dict (_field_values e) (dict_set d field_name new_value) ;;
  e <- get_editor self ;;
  d <- get_dict (_field_values e) ;;
  print ("EDITOR: Change executed: " ++ _last_change e
           ++ ". Current State: " ++ repr_dict d).

Definition createMemento (self : ref) : M FormState :=
  print "EDITOR: 📸 Capturing state snapshot..." ;;
  e <- get_editor self ;;
  d <- get_dict (_field_values e) ;;
  ret (FormState_init d).

(** [restoreMemento]: the editor takes the new dict object that
    [get_saved_state] returns. *)
Definition restoreMemento (self : ref) (memento : FormState) : M unit :=
  r <- new_dict (get_saved_state memento) ;;
  e <- get_editor self ;;
  set_editor self {| _field_values := r; _last_change := _last_change e |} ;;
  e <- get_editor self ;;
  set_editor self {| _field_values := _field_values e;
                     _last_change := "Restored from Memento" |} ;;
  e <- get_editor self ;;
  d <- get_dict (_field_values e) ;;
  print ("EDITOR: ⏪ State restored. Current State: " ++ repr_dict d).

(** [for (name, value) in changes: editor.update_field(name, value)] *)
Fixpoint update_fields (self : ref) (changes : list (string * string))
    : M unit :=
  match changes with
  | [] => ret tt
  | (field_name, new_value) :: rest =>
      update_field self field_name new_value ;; update_fields self rest
  end.

(** The caretaker's methods, run in the larger store. *)
Definition save_state (history : ref) (memento : FormState) : M unit :=
  lift_caretaker (Memento.save_state history memento).

Definition undo (history : ref) : M (option FormState) :=
  lift_caretaker (Memento.undo history).

(** [history.save_state(editor.createMemento())] *)
Definition snapshot (history editor : ref) : M unit :=
  memento <- createMemento editor ;;
  save_state history memento.

(** [memento_to_restore = history.undo()], then
    [if memento_to_restore: editor.restoreMemento(memento_to_restore)]. *)
Definition undo_and_restore (history editor : ref) : M unit :=
  memento_to_restore <- undo history ;;
  match memento_to_restore with
  | Some memento => restoreMemento editor memento
  | None => ret tt
  end.

End WithRepr.

(** [for _ in range(n): history.undo()], the results in order. *)
Fixpoint undo_times (history : ref) (n : nat)
    : Memento.M (list (option FormState)) :=
  match n with
  | O => ret []
  | S n' =>
      r <- Memento.undo history ;;
      rs <- undo_times history n' ;;
      ret (r :: rs)
  end.

(** [for m in mementos: history.save_state(m)] *)
Fixpoint save_all (history : ref) (mementos : list FormState)
    : Memento.M unit :=
  match mementos with
  | [] => ret tt
  | m :: rest => Memento.save_state history m ;; save_all history rest
  end.

(** The dict an editor holds at present. *)
Definition fields (w : World) (editor : ref) : Dict :=
  dicts w (_field_values (form_editors w editor)).

(** A store with nothing allocated. *)
Definition empty_world : World :=
  {| caretakers := Memento.empty_world;
     dicts := fun _ => [];
     form_editors := fun _ => {| _field_values := 0%nat;
                                 _last_change := "" |} |}.

(** The store a statement leaves behind. *)
Definition world_after {A : Type} (m : M A) (w : World) : World :=
  match m w with Ok _ w' => w' | Raise _ w' => w' end.

(** A stand-in for [str(d)] in examples: the keys, separated by commas. *)
Definition keys_only (d : Dict) : string := String.concat ", " (keys d).

(** The store after the script's first two statements: the dict
    [initial_data] at reference 0 and the editor built on it at
    reference 1. *)
Definition sample_world : World :=
  world_after
    (initial_data <- new_dict [("name", "Alice");
                               ("email", "alice@example.com")] ;;
     FormEditor_init initial_data)
    empty_world.

End FormEditing.

(* ================================================================== *)
(** * Facts about the Python primitives *)
(* ================================================================== *)

Module PythonFacts.

(** ** Substrings *)

Lemma length_append (a b : string) :
  String.length (a ++ b) = (String.length a + String.length b)%nat.
Proof. induction a as [|ch a IH]; simpl; [reflexivity | now rewrite IH]. Qed.

Lemma append_empty_r (a : string) : a ++ "" = a.
Proof. induction a as [|ch a IH]; simpl; [reflexivity | now rewrite IH]. Qed.

Lemma append_assoc (a b c : string) : (a ++ b) ++ c = a ++ (b ++ c).
Proof. induction a as [|ch a IH]; simpl; [reflexivity | now rewrite IH]. Qed.

Lemma substring_empty (n m : nat) : substring n m "" = "".
Proof. destruct n, m; reflexivity. Qed.

Lemma substring_zero_len (n : nat) (s : string) : substring n 0 s = "".
Proof.
  revert n; induction s as [|ch s IH]; intros [|n]; simpl; auto.
Qed.

Lemma substring_whole (m : nat) (s : string) :
  (String.length s <= m)%nat -> substring 0 m s = s.
Proof.
  revert m; induction s as [|ch s IH]; intros m Hm.
  - apply substring_empty.
  - destruct m as [|m]; simpl in *; [lia|]. rewrite IH by lia. reflexivity.
Qed.

Lemma substring_beyond (n m : nat) (s : string) :
  (String.length s <= n)%nat -> substring n m s = "".
Proof.
  revert n; induction s as [|ch s IH]; intros n Hn.
  - apply substring_empty.
  - destruct n as [|n]; simpl in *; [lia|]. apply IH; lia.
Qed.

Lemma substring_clip (n m : nat) (s : string) :
  (String.length s - n <= m)%nat ->
  substring n m s = substring n (String.length s - n) s.
Proof.
  revert n m; induction s as [|ch s IH]; intros n m Hm.
  - now rewrite !substring_empty.
  - destruct n as [|n]; simpl in *.
    + destruct m as [|m]; [lia|]. f_equal.
      rewrite !substring_whole by lia. reflexivity.
    + apply IH; lia.
Qed.

Lemma substring_split (n m : nat) (s : string) :
  substring 0 n s ++ substring n m s = substring 0 (n + m) s.
Proof.
  revert n m; induction s as [|ch s IH]; intros n m.
  - now rewrite !substring_empty.
  - destruct n as [|n]; simpl.
    + reflexivity.
    + f_equal. apply IH.
Qed.

Lemma substring_app_l (a b : string) :
  substring 0 (String.length a) (a ++ b) = a.
Proof.
  induction a as [|ch a IH]; simpl.
  - apply substring_zero_len.
  - now rewrite IH.
Qed.

Lemma substring_app_r (a b : string) (k m : nat) :
  substring (String.length a + k) m (a ++ b) = substring k m b.
Proof. induction a as [|ch a IH]; simpl; auto. Qed.

Lemma length_substring (n m : nat) (s : string) :
  String.length (substring n m s) = Nat.min m (String.length s - n).
Proof.
  revert n m; induction s as [|ch s IH]; intros n m.
  - rewrite substring_empty. simpl. lia.
  - destruct n as [|n]; simpl.
    + destruct m as [|m]; simpl; [reflexivity|]. rewrite IH. lia.
    + apply IH.
Qed.

(** ** Slices with bounds that are not negative *)

Lemma len_nonneg (s : string) : 0 <= len s.
Proof. unfold len; lia. Qed.

Lemma adjust_index_nonneg (n i : Z) :
  0 <= i -> adjust_index n i = Z.min i n.
Proof.
  intros Hi. unfold adjust_index.
  destruct (Z.ltb_spec i 0); [lia|].
  destruct (Z.leb_spec n i); lia.
Qed.

Lemma slice_prefix (s : string) (j : Z) :
  0 <= j -> slice s None (Some j) = substring 0 (Z.to_nat j) s.
Proof.
  intros Hj. unfold slice. rewrite adjust_index_nonneg by assumption.
  rewrite Z.sub_0_r. simpl Z.to_nat at 1. unfold len.
  destruct (Z.le_gt_cases j (Z.of_nat (String.length s))) as [H|H].
  - now rewrite Z.min_l by assumption.
  - rewrite Z.min_r by lia. rewrite Nat2Z.id.
    rewrite !substring_whole by lia. reflexivity.
Qed.

Lemma slice_suffix (s : string) (i : Z) :
  0 <= i ->
  slice s (Some i) None
  = substring (Z.to_nat i) (String.length s - Z.to_nat i) s.
Proof.
  intros Hi. unfold slice. rewrite adjust_index_nonneg by assumption.
  unfold len.
  destruct (Z.le_gt_cases i (Z.of_nat (String.length s))) as [H|H].
  - rewrite Z.min_l by assumption. f_equal. lia.
  - rewrite !substring_beyond by lia. reflexivity.
Qed.

Lemma slice_between (s : string) (i j : Z) :
  0 <= i <= j ->
  slice s (Some i) (Some j)
  = substring (Z.to_nat i) (Z.to_nat j - Z.to_nat i) s.
Proof.
  intros Hij. unfold slice. rewrite !adjust_index_nonneg by lia.
  unfold len.
  destruct (Z.le_gt_cases i (Z.of_nat (String.length s))) as [H|H].
  - rewrite (Z.min_l i) by assumption.
    destruct (Z.le_gt_cases j (Z.of_nat (String.length s))) as [H'|H'].
    + rewrite Z.min_l by assumption. f_equal. lia.
    + rewrite Z.min_r by lia.
      rewrite (substring_clip _ (Z.to_nat j - Z.to_nat i)) by lia.
      f_equal. lia.
  - rewrite !substring_beyond by lia. reflexivity.
Qed.

(** A slice never raises and is never longer than the string. *)
Lemma slice_length (s : string) (i j : option Z) :
  (String.length (slice s i j) <= String.length s)%nat.
Proof. unfold slice. rewrite length_substring. lia. Qed.

(** Cutting a string at two points and gluing the three parts back. *)
Lemma slice_three_parts (s : string) (i j : Z) :
  0 <= i <= j ->
  slice s None (Some i) ++ slice s (Some i) (Some j) ++ slice s (Some j) None
  = s.
Proof.
  intros Hij.
  rewrite slice_prefix, slice_between, slice_suffix by lia.
  rewrite <- append_assoc, substring_split.
  replace (Z.to_nat i + (Z.to_nat j - Z.to_nat i))%nat with (Z.to_nat j) by lia.
  rewrite substring_split. apply substring_whole. lia.
Qed.

Lemma slice_two_parts (s : string) (i : Z) :
  0 <= i -> slice s None (Some i) ++ slice s (Some i) None = s.
Proof.
  intros Hi. rewrite slice_prefix, slice_suffix by lia.
  rewrite substring_split. apply substring_whole. lia.
Qed.

(** ** Lists *)

Lemma pop_append {A : Type} (l : list A) (x : A) :
  pop (append l x) = inr (x, l).
Proof.
  unfold pop, append. rewrite rev_app_distr. simpl. now rewrite rev_involutive.
Qed.

Lemma last_item_append {A : Type} (l : list A) (x : A) :
  last_item (append l x) = inr x.
Proof. unfold last_item, append. rewrite rev_app_distr. reflexivity. Qed.

Lemma length_append_list {A : Type} (l : list A) (x : A) :
  length (append l x) = S (length l).
Proof. unfold append. rewrite length_app. simpl. lia. Qed.

Lemma truthy_append {A : Type} (l : list A) (x : A) :
  truthy (append l x) = true.
Proof. destruct l; reflexivity. Qed.

Lemma truthy_false {A : Type} (l : list A) : truthy l = false <-> l = [].
Proof. destruct l; simpl; split; congruence. Qed.

(** A list that is not empty is some list with one more element appended. *)
Lemma truthy_inv {A : Type} (l : list A) :
  truthy l = true -> exists l' x, l = append l' x.
Proof.
  intros H. destruct (exists_last (l := l)) as [l' [x E]].
  - intros ->. discriminate.
  - exists l', x. exact E.
Qed.

(** ** Stores *)

Lemma upd_same {A : Type} (h : ref -> A) (r : ref) (v : A) : upd h r v r = v.
Proof. unfold upd. now rewrite Nat.eqb_refl. Qed.

Lemma upd_other {A : Type} (h : ref -> A) (r r' : ref) (v : A) :
  r' <> r -> upd h r v r' = h r'.
Proof.
  intros H. unfold upd. destruct (Nat.eqb_spec r' r); [contradiction|reflexivity].
Qed.

(** ** Statements *)

Lemma bind_ret_l {W A B : Type} (a : A) (k : A -> Py W B) (w : W) :
  bind (ret a) k w = k a w.
Proof. reflexivity. Qed.

Lemma bind_assoc {W A B C : Type} (m : Py W A) (k : A -> Py W B)
    (k' : B -> Py W C) (w : W) :
  bind (bind m k) k' w = bind m (fun a => bind (k a) k') w.
Proof. unfold bind. destruct (m w); reflexivity. Qed.

Lemma bind_ok {W A B : Type} (m : Py W A) (k : A -> Py W B) (w w' : W) (a : A) :
  m w = Ok a w' -> bind m k w = k a w'.
Proof. intros H. unfold bind. now rewrite H. Qed.

Lemma bind_ok_inv {W A B : Type} (m : Py W A) (k : A -> Py W B)
    (w w2 : W) (b : B) :
  bind m k w = Ok b w2 -> exists a w1, m w = Ok a w1 /\ k a w1 = Ok b w2.
Proof.
  unfold bind. destruct (m w) as [a w1|e w1]; [|discriminate].
  intros H. now exists a, w1.
Qed.

Lemma ok_returns {W A : Type} (r : Result W A) (a : A) (w : W) :
  r = Ok a w -> returns r.
Proof. intros ->. now exists a, w. Qed.

Lemma returns_not_raises {W A : Type} (r : Result W A) :
  returns r -> ~ raises r.
Proof. intros [a [w ->]] [e [w' H]]. discriminate. Qed.

End PythonFacts.

(* ================================================================== *)
(** * Behavioral/command.py: what each method does to the store *)
(* ================================================================== *)

Module CommandFacts.
Import Command PythonFacts.

Ltac run :=
  unfold execute_command, CommandInvoker_undo, CommandInvoker_redo,
    history_append, history_pop, redo_stack_append, redo_stack_pop,
    redo_stack_clear, Command_execute, Command_undo,
    InsertTextCommand_execute, InsertTextCommand_undo,
    DeleteTextCommand_execute, DeleteTextCommand_undo,
    insert_text, delete_text, print, get_content, set_content,
    get_command, set_command, get_invoker, set_invoker, lift, bind, ret, raise.

Lemma Command_execute_spec (r : ref) (w : World) :
  exists w',
    Command_execute r w = Ok tt w' /\
    (forall e, editors w' e
       = upd (editors w) (editor_of (commands w r))
           {| content := executed_content (commands w r)
                           (content (editors w (editor_of (commands w r)))) |} e) /\
    (forall r', commands w' r'
       = upd (commands w) r
           (executed_command (commands w r)
              (content (editors w (editor_of (commands w r))))) r') /\
    invokers w' = invokers w /\ next_ref w' = next_ref w.
Proof.
  run. destruct (commands w r) as [ed t p|ed s e d] eqn:E; cbn.
  - eexists; split; [reflexivity|]. cbn. repeat split; auto.
    intros r'. unfold upd. destruct (Nat.eqb_spec r' r); congruence.
  - eexists; split; [reflexivity|]. cbn. repeat split; auto.
Qed.

Lemma editor_eta (x : TextEditor) : {| content := content x |} = x.
Proof. destruct x; reflexivity. Qed.

Lemma Command_undo_spec (r : ref) (w : World) :
  exists w',
    Command_undo r w = Ok tt w' /\
    (forall e, editors w' e
       = upd (editors w) (editor_of (commands w r))
           {| content := undone_content (commands w r)
                           (content (editors w (editor_of (commands w r)))) |} e) /\
    commands w' = commands w /\
    invokers w' = invokers w /\ next_ref w' = next_ref w.
Proof.
  run. destruct (commands w r) as [ed t p|ed s e [d|]] eqn:E; cbn.
  - eexists; split; [reflexivity|]. cbn. repeat split; auto.
  - eexists; split; [reflexivity|]. cbn. repeat split; auto.
  - eexists; split; [reflexivity|]. repeat split; auto.
    intros e'. unfold upd. destruct (Nat.eqb_spec e' ed); [subst|reflexivity].
    now rewrite editor_eta.
Qed.

Lemma editor_of_executed (cmd : Command) (c : string) :
  editor_of (executed_command cmd c) = editor_of cmd.
Proof. destruct cmd; reflexivity. Qed.

Lemma in_range_insert ed t p c :
  in_range c (InsertTextCommand ed t p) = true <-> 0 <= p <= len c.
Proof. simpl. rewrite andb_true_iff, !Z.leb_le. tauto. Qed.

Lemma in_range_delete ed s e d c :
  in_range c (DeleteTextCommand ed s e d) = true <-> 0 <= s <= e.
Proof. simpl. rewrite andb_true_iff, !Z.leb_le. tauto. Qed.

(** Undoing a command that was in range gives back the content it was
    executed on. *)
Lemma undone_executed (cmd : Command) (c : string) :
  in_range c cmd = true ->
  undone_content (executed_command cmd c) (executed_content cmd c) = c.
Proof.
  destruct cmd as [ed t p|ed s e d]; intros H.
  - apply in_range_insert in H. unfold len in H. simpl.
    set (a := slice c None (Some p)).
    set (b := slice c (Some p) None).
    assert (Ha : String.length a = Z.to_nat p).
    { unfold a. rewrite slice_prefix, length_substring by lia. lia. }
    assert (Hab : a ++ b = c) by (apply slice_two_parts; lia).
    rewrite slice_prefix, slice_suffix by (unfold len; lia).
    rewrite <- Ha at 1. rewrite substring_app_l.
    replace (Z.to_nat (p + len t)) with (String.length a + String.length t)%nat
      by (unfold len; lia).
    rewrite substring_app_r.
    replace (String.length t) with (String.length t + 0)%nat at 1 by lia.
    rewrite substring_app_r.
    rewrite substring_whole; [exact Hab|].
    rewrite !length_append. lia.
  - apply in_range_delete in H. simpl.
    set (a := slice c None (Some s)).
    set (b := slice c (Some e) None).
    set (m := slice c (Some s) (Some e)).
    assert (Habc : a ++ m ++ b = c) by (apply slice_three_parts; lia).
    destruct (Z.le_gt_cases s (len c)) as [Hs|Hs]; unfold len in Hs.
    + assert (Ha : String.length a = Z.to_nat s).
      { unfold a. rewrite slice_prefix, length_substring by lia. lia. }
      rewrite slice_prefix, slice_suffix by lia.
      rewrite <- Ha at 1. rewrite substring_app_l.
      replace (Z.to_nat s) with (String.length a + 0)%nat at 1 by lia.
      rewrite substring_app_r.
      rewrite substring_whole; [exact Habc|].
      rewrite !length_append. lia.
    + assert (Hm : m = "").
      { unfold m. rewrite slice_between by lia. apply substring_beyond. lia. }
      assert (Hb : b = "").
      { unfold b. rewrite slice_suffix by lia. apply substring_beyond. lia. }
      rewrite Hm, Hb in *. simpl in Habc. rewrite append_empty_r in *.
      rewrite Habc. simpl.
      rewrite slice_prefix, slice_suffix by lia.
      rewrite substring_whole by lia.
      rewrite substring_beyond by lia. apply append_empty_r.
Qed.

Lemma execute_command_spec (iv r : ref) (w : World) :
  exists w0 w',
    Command_execute r w = Ok tt w0 /\
    execute_command iv r w = Ok tt w' /\
    editors w' = editors w0 /\ commands w' = commands w0 /\
    next_ref w' = next_ref w /\
    (forall i, invokers w' i
       = upd (invokers w) iv
           {| _history := append (_history (invokers w iv)) r;
              _redo_stack := [] |} i).
Proof.
  destruct (Command_execute_spec r w) as [w0 [E [_ [_ [Hi Hn]]]]].
  exists w0. eexists. split; [exact E|].
  unfold execute_command. unfold bind at 1. rewrite E. run. cbn.
  split; [reflexivity|]. cbn.
  repeat split; auto. intros i. rewrite Hi, upd_same.
  unfold upd. destruct (Nat.eqb i iv); reflexivity.
Qed.

Lemma CommandInvoker_undo_spec (iv : ref) (w : World) (h : list ref) (r : ref) :
  _history (invokers w iv) = append h r ->
  exists w',
    CommandInvoker_undo iv w = Ok tt w' /\
    (forall e, editors w' e
       = upd (editors w) (editor_of (commands w r))
           {| content := undone_content (commands w r)
                           (content (editors w (editor_of (commands w r)))) |} e) /\
    commands w' = commands w /\ next_ref w' = next_ref w /\
    (forall i, invokers w' i
       = upd (invokers w) iv
           {| _history := h;
              _redo_stack := append (_redo_stack (invokers w iv)) r |} i).
Proof.
  intros Hh. unfold CommandInvoker_undo, history_pop.
  unfold bind at 1. unfold get_invoker at 1. rewrite Hh, truthy_append. cbn [negb].
  unfold bind at 1. unfold bind at 1. unfold get_invoker at 1.
  rewrite Hh, pop_append. cbn [lift ret bind fst snd set_invoker].
  match goal with |- context [bind (Command_undo r) _ ?w1] =>
    destruct (Command_undo_spec r w1) as [w2 [E [He [Hc [Hi Hn]]]]] end.
  unfold bind at 1. rewrite E.
  cbn in He, Hc, Hi, Hn.
  run. cbn. eexists; split; [reflexivity|]. cbn.
  repeat split; auto. intros i. rewrite Hi, upd_same. cbn.
  unfold upd. destruct (Nat.eqb i iv); reflexivity.
Qed.

Lemma CommandInvoker_redo_spec (iv : ref) (w : World) (rs : list ref) (r : ref) :
  _redo_stack (invokers w iv) = append rs r ->
  exists w',
    CommandInvoker_redo iv w = Ok tt w' /\
    (forall e, editors w' e
       = upd (editors w) (editor_of (commands w r))
           {| content := executed_content (commands w r)
                           (content (editors w (editor_of (commands w r)))) |} e) /\
    (forall r', commands w' r'
       = upd (commands w) r
           (executed_command (commands w r)
              (content (editors w (editor_of (commands w r))))) r') /\
    next_ref w' = next_ref w /\
    (forall i, invokers w' i
       = upd (invokers w) iv
           {| _history := append (_history (invokers w iv)) r;
              _redo_stack := rs |} i).
Proof.
  intros Hr. unfold CommandInvoker_redo, redo_stack_pop.
  unfold bind at 1. unfold get_invoker at 1. rewrite Hr, truthy_append. cbn [negb].
  unfold bind at 1. unfold bind at 1. unfold get_invoker at 1.
  rewrite Hr, pop_append. cbn [lift ret bind fst snd set_invoker].
  match goal with |- context [bind (Command_execute r) _ ?w1] =>
    destruct (Command_execute_spec r w1) as [w2 [E [He [Hc [Hi Hn]]]]] end.
  unfold bind at 1. rewrite E.
  cbn in He, Hc, Hi, Hn.
  run. cbn. eexists; split; [reflexivity|]. cbn.
  repeat split; auto. intros i. rewrite Hi, upd_same. cbn.
  unfold upd. destruct (Nat.eqb i iv); reflexivity.
Qed.

Lemma undo_empty (iv : ref) (w : World) :
  _history (invokers w iv) = [] ->
  exists w', CommandInvoker_undo iv w = Ok tt w' /\ only_printed cannot_undo w w'.
Proof.
  intros H. unfold CommandInvoker_undo, bind, get_invoker. rewrite H. cbn.
  eexists; split; [reflexivity|]. repeat split.
Qed.

Lemma redo_empty (iv : ref) (w : World) :
  _redo_stack (invokers w iv) = [] ->
  exists w', CommandInvoker_redo iv w = Ok tt w' /\ only_printed cannot_redo w w'.
Proof.
  intros H. unfold CommandInvoker_redo, bind, get_invoker. rewrite H. cbn.
  eexists; split; [reflexivity|]. repeat split.
Qed.

Lemma undo_times_snoc (iv : ref) (n : nat) (w : World) :
  undo_times iv (S n) w = (undo_times iv n ;; CommandInvoker_undo iv) w.
Proof.
  revert w. induction n as [|n IH]; intros w.
  - change (undo_times iv 1 w)
      with ((CommandInvoker_undo iv ;; ret tt) w).
    change (undo_times iv 0) with (@ret World unit tt).
    unfold bind, ret.
    destruct (CommandInvoker_undo iv w) as [[] w'|]; reflexivity.
  - change (undo_times iv (S (S n)) w)
      with ((CommandInvoker_undo iv ;; undo_times iv (S n)) w).
    change (undo_times iv (S n))
      with (CommandInvoker_undo iv ;; undo_times iv n) at 2.
    rewrite bind_assoc. unfold bind at 1 2.
    destruct (CommandInvoker_undo iv w) as [[] w'|]; [|reflexivity].
    apply IH.
Qed.

Lemma roundtrip_run (cmds : list ref) :
  forall (iv : ref) (w : World),
  NoDup cmds -> well_ranged iv cmds w = true ->
  exists w',
    (execute_all iv cmds ;; undo_times iv (length cmds)) w = Ok tt w' /\
    (forall e, editors w' e = editors w e) /\
    (forall r, ~ In r cmds -> commands w' r = commands w r) /\
    next_ref w' = next_ref w /\
    _history (invokers w' iv) = _history (invokers w iv) /\
    _redo_stack (invokers w' iv)
      = match cmds with [] => _redo_stack (invokers w iv) | _ => rev cmds end /\
    (forall i, i <> iv -> invokers w' i = invokers w i).
Proof.
  induction cmds as [|r rest IH]; intros iv w Hnd Hwr.
  - exists w. cbn. repeat split; auto.
  - inversion Hnd as [|? ? Hnotin Hnd']; subst.
    cbn [well_ranged] in Hwr. apply andb_true_iff in Hwr as [Hin Hwr].
    destruct (execute_command_spec iv r w)
      as [w0 [w1 [E0 [E1 [He1 [Hc1 [Hn1 Hi1]]]]]]].
    rewrite E1 in Hwr.
    destruct (Command_execute_spec r w) as [w0' [E0' [He0 [Hc0 _]]]].
    rewrite E0 in E0'. injection E0' as <-.
    destruct (IH iv w1 Hnd' Hwr) as [w2 [E2 [He2 [Hc2 [Hn2 [Hh2 [Hr2 Hi2]]]]]]].
    apply bind_ok_inv in E2 as [[] [wm [Em Eu]]].
    assert (Hh : _history (invokers w2 iv) = append (_history (invokers w iv)) r).
    { rewrite Hh2, Hi1, upd_same. reflexivity. }
    destruct (CommandInvoker_undo_spec iv w2 _ r Hh)
      as [w3 [E3 [He3 [Hc3 [Hn3 Hi3]]]]].
    exists w3. split.
    { cbn [execute_all length]. unfold bind. rewrite E1, Em.
      rewrite undo_times_snoc. unfold bind. rewrite Eu. exact E3. }
    set (cmd := commands w r) in *.
    set (ed := editor_of cmd) in *.
    set (c := content (editors w ed)) in *.
    assert (Hcmd2 : commands w2 r = executed_command cmd c).
    { rewrite Hc2 by assumption. rewrite Hc1, Hc0. apply upd_same. }
    assert (Hed2 : content (editors w2 ed) = executed_content cmd c).
    { rewrite He2, He1, He0, upd_same. reflexivity. }
    repeat split.
    + intros e. rewrite He3, Hcmd2, editor_of_executed. fold ed.
      rewrite Hed2, undone_executed by exact Hin.
      unfold upd. destruct (Nat.eqb_spec e ed) as [->|Hne].
      * apply editor_eta.
      * rewrite He2, He1, He0. now apply upd_other.
    + intros r' Hr'. rewrite Hc3, Hc2 by (intros ?; apply Hr'; now right).
      rewrite Hc1, Hc0. apply upd_other. intros ->. apply Hr'. now left.
    + congruence.
    + rewrite Hi3, upd_same. reflexivity.
    + rewrite Hi3, upd_same. cbn [_redo_stack]. rewrite Hr2.
      assert (Hnil : _redo_stack (invokers w1 iv) = []).
      { rewrite Hi1, upd_same. reflexivity. }
      unfold append. destruct rest; [now rewrite Hnil|reflexivity].
    + intros i Hi. rewrite Hi3, upd_other, Hi2, Hi1, upd_other by assumption.
      reflexivity.
Qed.

Lemma execute_undo_run (r : ref) (w : World) :
  in_range_now w r = true ->
  exists w',
    (Command_execute r ;; Command_undo r) w = Ok tt w' /\
    (forall e, editors w' e = editors w e).
Proof.
  intros Hin.
  destruct (Command_execute_spec r w) as [w1 [E1 [He1 [Hc1 _]]]].
  destruct (Command_undo_spec r w1) as [w2 [E2 [He2 _]]].
  exists w2. split.
  - unfold bind. rewrite E1. exact E2.
  - intros e. rewrite He2, Hc1, upd_same, editor_of_executed, He1, upd_same.
    cbn [content]. rewrite undone_executed by exact Hin.
    unfold upd at 1. destruct (Nat.eqb_spec e (editor_of (commands w r))) as [->|Hne].
    + apply editor_eta.
    + rewrite He1. now apply upd_other.
Qed.

Lemma undo_total (iv : ref) (w : World) :
  exists w', CommandInvoker_undo iv w = Ok tt w' /\
             stack_total (invokers w' iv) = stack_total (invokers w iv).
Proof.
  destruct (truthy (_history (invokers w iv))) eqn:T.
  - apply truthy_inv in T as [h [c Hh]].
    destruct (CommandInvoker_undo_spec iv w h c Hh) as [w' [E [_ [_ [_ Hi]]]]].
    exists w'. split; [exact E|]. rewrite Hi, upd_same. unfold stack_total.
    cbn [_history _redo_stack]. rewrite Hh, !length_append_list. lia.
  - apply truthy_false in T.
    destruct (undo_empty iv w T) as [w' [E [_ [_ [Hi _]]]]].
    exists w'. split; [exact E|]. now rewrite Hi.
Qed.

Lemma redo_total (iv : ref) (w : World) :
  exists w', CommandInvoker_redo iv w = Ok tt w' /\
             stack_total (invokers w' iv) = stack_total (invokers w iv).
Proof.
  destruct (truthy (_redo_stack (invokers w iv))) eqn:T.
  - apply truthy_inv in T as [rs [c Hr]].
    destruct (CommandInvoker_redo_spec iv w rs c Hr) as [w' [E [_ [_ [_ Hi]]]]].
    exists w'. split; [exact E|]. rewrite Hi, upd_same. unfold stack_total.
    cbn [_history _redo_stack]. rewrite Hr, !length_append_list. lia.
  - apply truthy_false in T.
    destruct (redo_empty iv w T) as [w' [E [_ [_ [Hi _]]]]].
    exists w'. split; [exact E|]. now rewrite Hi.
Qed.


End CommandFacts.

(* ================================================================== *)
(** * Behavioral/command.py: properties *)
(* ================================================================== *)

Module CommandProperties.
Import Command PythonFacts CommandFacts.

(** ** Slices that reach past the end *)

Lemma slice_prefix_past_end (c : string) (p : Z) :
  len c <= p -> slice c None (Some p) = c.
Proof.
  intros H. pose proof (len_nonneg c). unfold len in *.
  rewrite slice_prefix by lia. apply substring_whole. lia.
Qed.

Lemma slice_suffix_past_end (c : string) (p : Z) :
  len c <= p -> slice c (Some p) None = "".
Proof.
  intros H. pose proof (len_nonneg c). unfold len in *.
  rewrite slice_suffix by lia. apply substring_beyond. lia.
Qed.

Lemma slice_stop_past_end (c : string) (s e : Z) :
  len c <= e -> slice c (Some s) (Some e) = slice c (Some s) None.
Proof.
  intros H. pose proof (len_nonneg c). unfold slice.
  rewrite (adjust_index_nonneg (len c) e) by lia.
  now rewrite Z.min_r by lia.
Qed.

Lemma delete_past_end_parts (c : string) (s e : Z) :
  0 <= s -> len c <= e ->
  (slice c None (Some s) ++ slice c (Some e) None) ++ slice c (Some s) None = c.
Proof.
  intros Hs He. rewrite (slice_suffix_past_end c e He), append_empty_r.
  now apply slice_two_parts.
Qed.

(** ** The receiver *)

(** C9. [insert_text] and [delete_text] return normally for all index
    arguments that are not negative.  An insertion at or past the end
    appends the text; a deletion whose end lies past the end of the content
    returns exactly the suffix [content[s:]] and removes exactly it. *)
Theorem editor_total_and_clipped (w : World) (self : ref) :
  let c := content (editors w self) in
  (forall text p, 0 <= p ->
     exists w', insert_text self text p w = Ok tt w' /\
       (len c <= p -> content (editors w' self) = c ++ text)) /\
  (forall s e, 0 <= s -> 0 <= e ->
     exists w', delete_text self s e w = Ok (slice c (Some s) (Some e)) w' /\
       (len c < e ->
          slice c (Some s) (Some e) = slice c (Some s) None /\
          content (editors w' self) ++ slice c (Some s) None = c)).
Proof.
  intros c. split.
  - intros text p Hp. run. cbn. eexists; split; [reflexivity|].
    intros Hlen. cbn. rewrite upd_same. cbn. fold c.
    rewrite slice_prefix_past_end, slice_suffix_past_end by assumption.
    now rewrite append_empty_r.
  - intros s e Hs He. run. cbn. eexists; split; [reflexivity|].
    intros Hlen. cbn. rewrite upd_same. cbn. fold c. split.
    + apply slice_stop_past_end. lia.
    + apply delete_past_end_parts; lia.
Qed.

Lemma editor_total_and_clipped_witness :
  (exists w', insert_text 0%nat "!" 25 sample_world = Ok tt w' /\
     content (editors w' 0%nat) = "The quick brown fox.!") /\
  (exists w', delete_text 0%nat 16 25 sample_world = Ok "fox." w' /\
     content (editors w' 0%nat) ++ "fox." = "The quick brown fox.").
Proof.
  split.
  - destruct (proj1 (editor_total_and_clipped sample_world 0%nat) "!" 25)
      as [w' [E H]]; [lia|].
    exists w'. split; [exact E|]. apply H. vm_compute. discriminate.
  - destruct (proj2 (editor_total_and_clipped sample_world 0%nat) 16 25)
      as [w' [E H]]; [lia|lia|].
    exists w'. split; [exact E|]. apply H. reflexivity.
Defined.

(** ** Commands *)

(** C1, amended.  A command that is in range for the content of its editor
    is undone exactly by [undo] straight after [execute].  When an invoker
    executes a sequence of distinct command objects, each in range at the
    moment it is executed, as many undos bring the content of every editor
    back to what it was at the start; the invoker's history is back to what
    it was, and the redo stack holds the commands in reverse order of
    execution. *)
Theorem roundtrip_in_range :
  (forall (r : ref) (w : World),
      in_range_now w r = true ->
      exists w',
        (Command_execute r ;; Command_undo r) w = Ok tt w' /\
        forall e, editors w' e = editors w e) /\
  (forall (iv : ref) (cmds : list ref) (w : World),
      NoDup cmds -> well_ranged iv cmds w = true ->
      exists w',
        (execute_all iv cmds ;; undo_times iv (length cmds)) w = Ok tt w' /\
        (forall e, editors w' e = editors w e) /\
        _history (invokers w' iv) = _history (invokers w iv) /\
        (cmds <> [] -> _redo_stack (invokers w' iv) = rev cmds)).
Proof.
  split.
  - exact execute_undo_run.
  - intros iv cmds w Hnd Hwr.
    destruct (roundtrip_run cmds iv w Hnd Hwr)
      as [w' [E [He [_ [_ [Hh [Hr _]]]]]]].
    exists w'. repeat split; auto.
    intros Hne. rewrite Hr. destruct cmds; [contradiction|reflexivity].
Qed.

Lemma roundtrip_in_range_witness :
  (exists w',
     (Command_execute 0%nat ;; Command_undo 0%nat) sample_world = Ok tt w' /\
     forall e, editors w' e = editors sample_world e) /\
  (exists w',
     (execute_all 0%nat [0%nat; 1%nat] ;; undo_times 0%nat 2) sample_world
       = Ok tt w' /\
     (forall e, editors w' e = editors sample_world e) /\
     _history (invokers w' 0%nat) = [] /\
     _redo_stack (invokers w' 0%nat) = [1%nat; 0%nat]).
Proof.
  split.
  - apply (proj1 roundtrip_in_range 0%nat sample_world). reflexivity.
  - destruct (proj2 roundtrip_in_range 0%nat [0%nat; 1%nat] sample_world)
      as [w' [E [He [Hh Hr]]]].
    + repeat constructor; simpl; intuition discriminate.
    + reflexivity.
    + exists w'. repeat split; auto. apply Hr. discriminate.
Defined.

(** C1 as stated fails.  On the content ["ab"], [Insert("xy", 5)] appends the
    text, and its [undo] deletes the span from 5 to 7, which is empty: the
    content stays ["abxy"]. *)
Lemma roundtrip_fails_past_end :
  exists w,
    execute_then_undo "ab"
      (fun editor => InsertTextCommand_init editor "xy" 5) empty_world
    = Ok ("ab", "abxy") w /\
    "ab" <> "abxy".
Proof. eexists. split; [vm_compute; reflexivity | discriminate]. Qed.

(** Why the command objects must be distinct: a delete command executed twice
    keeps only the text of its second execution, so two undos re-insert that
    text twice. *)
Example same_delete_object_twice :
  exists w,
    execute_twice_then_undo "abcd" 0 2 empty_world = Ok ("abcd", "cdcd") w.
Proof. eexists. vm_compute. reflexivity. Qed.

(** C5, amended.  [undo] of a delete command whose [execute] never ran, so
    that [_deleted_text] is still [None], returns normally and changes
    nothing: no error reaches the caller, nothing is printed, and the store
    is exactly what it was.  A freshly constructed delete command is in that
    state. *)
Theorem delete_undo_before_execute_silent :
  (forall (w : World) (r editor : ref) (start end_ : Z),
      commands w r = DeleteTextCommand editor start end_ None ->
      Command_undo r w = Ok tt w) /\
  (forall (w : World) (editor : ref) (start end_ : Z),
      exists r w',
        DeleteTextCommand_init editor start end_ w = Ok r w' /\
        commands w' r = DeleteTextCommand editor start end_ None /\
        Command_undo r w' = Ok tt w').
Proof.
  assert (H : forall w r editor start end_,
             commands w r = DeleteTextCommand editor start end_ None ->
             Command_undo r w = Ok tt w).
  { intros w r editor start end_ Hc.
    unfold Command_undo, bind, get_command. rewrite Hc. reflexivity. }
  split; [exact H|].
  intros w editor start end_. eexists. eexists.
  split; [reflexivity|].
  assert (Hc : forall (c : Command),
             upd (commands w) (next_ref w) c (next_ref w) = c)
    by (intros c; apply upd_same).
  split; [apply Hc|]. apply (H _ _ editor start end_). apply Hc.
Qed.

Lemma delete_undo_before_execute_silent_witness :
  Command_undo 1%nat sample_world = Ok tt sample_world.
Proof.
  apply (proj1 delete_undo_before_execute_silent sample_world 1%nat 0%nat 14 20).
  reflexivity.
Defined.

(** C5 as stated fails: [undo] on a delete command that was never executed
    raises nothing; the call returns and the content is untouched. *)
Lemma delete_undo_before_execute_no_error :
  ~ raises (undo_before_execute "abc" 0 1 empty_world) /\
  exists w, undo_before_execute "abc" 0 1 empty_world = Ok "abc" w.
Proof.
  assert (H : exists w, undo_before_execute "abc" 0 1 empty_world = Ok "abc" w)
    by (eexists; vm_compute; reflexivity).
  split; [|exact H].
  destruct H as [w E]. apply returns_not_raises. exact (ok_returns _ _ _ E).
Qed.

(** C6, amended.  Executing a delete command never surfaces an error,
    whatever its range: it returns normally, directly and through the
    invoker.  Slicing clips the bounds: the command captures
    [content[start:end]] and the content becomes
    [content[:start] + content[end:]].  With [0 <= start] and [end] past the
    end of the content, what is captured and removed is exactly the suffix
    [content[start:]]. *)
Theorem delete_execute_clips (w : World) (r editor : ref) (start end_ : Z)
    (d : option string) :
  commands w r = DeleteTextCommand editor start end_ d ->
  let c := content (editors w editor) in
  (forall iv, returns (execute_command iv r w)) /\
  exists w',
    Command_execute r w = Ok tt w' /\
    commands w' r
      = DeleteTextCommand editor start end_
          (Some (slice c (Some start) (Some end_))) /\
    content (editors w' editor)
      = slice c None (Some start) ++ slice c (Some end_) None /\
    (0 <= start -> len c < end_ ->
       slice c (Some start) (Some end_) = slice c (Some start) None /\
       content (editors w' editor) ++ slice c (Some start) None = c).
Proof.
  intros Hc c. split.
  - intros iv.
    destruct (execute_command_spec iv r w) as [w0 [w1 [_ [E _]]]].
    exact (ok_returns _ _ _ E).
  - destruct (Command_execute_spec r w) as [w' [E [He [Hcm _]]]].
    rewrite Hc in He, Hcm. cbn [editor_of executed_content executed_command] in *.
    fold c in He, Hcm.
    exists w'. split; [exact E|]. split; [now rewrite Hcm, upd_same|].
    assert (Hcont : content (editors w' editor)
                    = slice c None (Some start) ++ slice c (Some end_) None)
      by now rewrite He, upd_same.
    split; [exact Hcont|].
    intros Hs Hlen. split.
    + apply slice_stop_past_end. lia.
    + rewrite Hcont. apply delete_past_end_parts; lia.
Qed.

Lemma delete_execute_clips_witness :
  (forall iv, returns (execute_command iv 2%nat sample_world)) /\
  exists w',
    Command_execute 2%nat sample_world = Ok tt w' /\
    commands w' 2%nat = DeleteTextCommand 0%nat 16 25 (Some "fox.") /\
    content (editors w' 0%nat) = "The quick brown " /\
    content (editors w' 0%nat) ++ "fox." = "The quick brown fox.".
Proof.
  destruct (delete_execute_clips sample_world 2%nat 0%nat 16 25 None eq_refl)
    as [Hr [w' [E [Hc [Hcont Hpast]]]]].
  split; [exact Hr|]. exists w'.
  split; [exact E|]. split; [exact Hc|]. split; [exact Hcont|].
  apply Hpast; [lia | vm_compute; reflexivity].
Defined.

(** C6 as stated fails: on the content ["abc"], [Delete(2, 10)] reaches past
    the end, yet executing it raises nothing; it captures ["c"] and leaves
    ["ab"]. *)
Lemma delete_past_end_no_error :
  ~ raises (execute_delete "abc" 2 10 empty_world) /\
  exists w,
    execute_delete "abc" 2 10 empty_world
    = Ok (DeleteTextCommand 0%nat 2 10 (Some "c"), "ab") w.
Proof.
  assert (H : exists w,
             execute_delete "abc" 2 10 empty_world
             = Ok (DeleteTextCommand 0%nat 2 10 (Some "c"), "ab") w)
    by (eexists; vm_compute; reflexivity).
  split; [|exact H].
  destruct H as [w E]. apply returns_not_raises. exact (ok_returns _ _ _ E).
Qed.

(** ** The invoker *)

(** C3.  [execute_command] always leaves the redo stack empty.  So after
    [execute_command(a)], [undo()], [execute_command(b)], a [redo()] prints
    that there is nothing to redo and changes nothing else. *)
Theorem redo_cleared_by_execute (iv : ref) (w : World) :
  (forall c, exists w',
      execute_command iv c w = Ok tt w' /\ _redo_stack (invokers w' iv) = []) /\
  (forall a b, exists w3 w4,
      (execute_command iv a ;; CommandInvoker_undo iv ;; execute_command iv b) w
        = Ok tt w3 /\
      CommandInvoker_redo iv w3 = Ok tt w4 /\
      only_printed cannot_redo w3 w4).
Proof.
  split.
  - intros c.
    destruct (execute_command_spec iv c w) as [w0 [w1 [_ [E [_ [_ [_ Hi]]]]]]].
    exists w1. split; [exact E|]. now rewrite Hi, upd_same.
  - intros a b.
    destruct (execute_command_spec iv a w) as [wa [w1 [_ [E1 [_ [_ [_ Hi1]]]]]]].
    assert (Hh : _history (invokers w1 iv) = append (_history (invokers w iv)) a)
      by now rewrite Hi1, upd_same.
    destruct (CommandInvoker_undo_spec iv w1 _ a Hh) as [w2 [E2 _]].
    destruct (execute_command_spec iv b w2) as [wb [w3 [_ [E3 [_ [_ [_ Hi3]]]]]]].
    assert (Hr : _redo_stack (invokers w3 iv) = []) by now rewrite Hi3, upd_same.
    destruct (redo_empty iv w3 Hr) as [w4 [E4 Hp]].
    exists w3, w4. split; [|split; assumption].
    unfold bind. rewrite E1, E2. exact E3.
Qed.

(** C4.  On an empty history [undo] returns normally, prints its no-op line
    and changes nothing else, however many times it is called; on an empty
    redo stack [redo] does the same with its own line. *)
Theorem empty_stack_noop (iv : ref) (w : World) :
  (_history (invokers w iv) = [] ->
     (exists w', CommandInvoker_undo iv w = Ok tt w' /\
                 only_printed cannot_undo w w') /\
     (forall n, exists w',
         undo_times iv n w = Ok tt w' /\
         editors w' = editors w /\ commands w' = commands w /\
         invokers w' = invokers w /\
         stdout w' = (stdout w ++ repeat cannot_undo n)%list)) /\
  (_redo_stack (invokers w iv) = [] ->
     exists w', CommandInvoker_redo iv w = Ok tt w' /\
                only_printed cannot_redo w w').
Proof.
  split; [|apply redo_empty].
  intros H. split; [now apply undo_empty|].
  intros n. revert w H. induction n as [|n IH]; intros w H.
  - exists w. cbn. rewrite app_nil_r. repeat split.
  - destruct (undo_empty iv w H) as [w1 [E [He [Hc [Hi [_ Ho]]]]]].
    destruct (IH w1) as [w2 [E2 [He2 [Hc2 [Hi2 Ho2]]]]].
    { now rewrite Hi. }
    exists w2. cbn [undo_times]. unfold bind. rewrite E.
    split; [exact E2|]. repeat split; try congruence.
    rewrite Ho2, Ho, <- app_assoc. reflexivity.
Qed.

Lemma empty_stack_noop_witness :
  (exists w', CommandInvoker_undo 0%nat sample_world = Ok tt w' /\
              only_printed cannot_undo sample_world w') /\
  (exists w', undo_times 0%nat 3 sample_world = Ok tt w' /\
              editors w' = editors sample_world /\
              commands w' = commands sample_world /\
              invokers w' = invokers sample_world /\
              stdout w' = [cannot_undo; cannot_undo; cannot_undo]) /\
  (exists w', CommandInvoker_redo 0%nat sample_world = Ok tt w' /\
              only_printed cannot_redo sample_world w').
Proof.
  destruct (empty_stack_noop 0%nat sample_world) as [Hu Hr].
  destruct (Hu eq_refl) as [H1 Hn].
  split; [exact H1|]. split; [exact (Hn 3%nat)|]. exact (Hr eq_refl).
Defined.

(** C10.  [undo] on a history that is not empty moves its last command, the
    one executed most recently, onto the redo stack; [redo] on a redo stack
    that is not empty moves its last command back onto the history.  Every
    [undo] and every [redo] keeps [len(history) + len(redo_stack)], and an
    [undo] that found a command, followed by [redo], leaves both stacks as
    they were. *)
Theorem undo_redo_move_one (iv : ref) (w : World) :
  (forall h c, _history (invokers w iv) = append h c ->
     exists w', CommandInvoker_undo iv w = Ok tt w' /\
       _history (invokers w' iv) = h /\
       _redo_stack (invokers w' iv) = append (_redo_stack (invokers w iv)) c) /\
  (forall rs c, _redo_stack (invokers w iv) = append rs c ->
     exists w', CommandInvoker_redo iv w = Ok tt w' /\
       _history (invokers w' iv) = append (_history (invokers w iv)) c /\
       _redo_stack (invokers w' iv) = rs) /\
  (exists w', CommandInvoker_undo iv w = Ok tt w' /\
     stack_total (invokers w' iv) = stack_total (invokers w iv)) /\
  (exists w', CommandInvoker_redo iv w = Ok tt w' /\
     stack_total (invokers w' iv) = stack_total (invokers w iv)) /\
  (truthy (_history (invokers w iv)) = true ->
     exists w', (CommandInvoker_undo iv ;; CommandInvoker_redo iv) w = Ok tt w' /\
       invokers w' iv = invokers w iv).
Proof.
  split; [|split; [|split; [apply undo_total|split; [apply redo_total|]]]].
  - intros h c Hh.
    destruct (CommandInvoker_undo_spec iv w h c Hh) as [w' [E [_ [_ [_ Hi]]]]].
    exists w'. split; [exact E|]. now rewrite Hi, upd_same.
  - intros rs c Hr.
    destruct (CommandInvoker_redo_spec iv w rs c Hr) as [w' [E [_ [_ [_ Hi]]]]].
    exists w'. split; [exact E|]. now rewrite Hi, upd_same.
  - intros T. apply truthy_inv in T as [h [c Hh]].
    destruct (CommandInvoker_undo_spec iv w h c Hh) as [w1 [E1 [_ [_ [_ Hi1]]]]].
    assert (Hr : _redo_stack (invokers w1 iv)
                 = append (_redo_stack (invokers w iv)) c)
      by now rewrite Hi1, upd_same.
    destruct (CommandInvoker_redo_spec iv w1 _ c Hr) as [w2 [E2 [_ [_ [_ Hi2]]]]].
    exists w2. split.
    + unfold bind. rewrite E1. exact E2.
    + rewrite Hi2, upd_same, Hi1, upd_same. cbn [_history].
      rewrite <- Hh. destruct (invokers w iv); reflexivity.
Qed.

Lemma undo_redo_move_one_witness :
  (exists w', CommandInvoker_undo 0%nat played_world = Ok tt w' /\
     _history (invokers w' 0%nat) = [0%nat] /\
     _redo_stack (invokers w' 0%nat) = [2%nat; 1%nat]) /\
  (exists w', CommandInvoker_redo 0%nat played_world = Ok tt w' /\
     _history (invokers w' 0%nat) = [0%nat; 1%nat; 2%nat] /\
     _redo_stack (invokers w' 0%nat) = []) /\
  (exists w',
     (CommandInvoker_undo 0%nat ;; CommandInvoker_redo 0%nat) played_world
       = Ok tt w' /\
     invokers w' 0%nat = invokers played_world 0%nat).
Proof.
  destruct (undo_redo_move_one 0%nat played_world) as [Hu [Hr [_ [_ Hur]]]].
  split; [exact (Hu [0%nat] 1%nat eq_refl)|].
  split; [exact (Hr [] 2%nat eq_refl)|].
  exact (Hur eq_refl).
Defined.

(** ** The script *)

(** C7.  What the script prints and where it ends.  The contents after each
    step are the ones stated; the text that [Delete(14, 20)] removes is
    [" brown"], with the space in front, and not ["brown "]. *)
Theorem main_transcript :
  exists w,
    main empty_world = Ok (0%nat, 1%nat) w /\
    stdout w =
      [ "EDITOR: Initial content: 'The quick brown fox.'";
        "COMMAND: Executed Insert('lazy ') -> 'The lazy quick brown fox.'";
        "INVOKER: Command executed and saved to history. History size: 1";
        "COMMAND: Executed Delete(' brown') -> 'The lazy quick fox.'";
        "INVOKER: Command executed and saved to history. History size: 2";
        header "--- UNDO 1 (Reverses Delete) ---";
        "COMMAND: Undone Delete -> 'The lazy quick brown fox.'";
        "INVOKER: Undo successful. History size: 1. Redo size: 1";
        header "--- UNDO 2 (Reverses Insert) ---";
        "COMMAND: Undone Insert -> 'The quick brown fox.'";
        "INVOKER: Undo successful. History size: 0. Redo size: 2";
        header "--- REDO 1 (Reapplies Insert) ---";
        "COMMAND: Executed Insert('lazy ') -> 'The lazy quick brown fox.'";
        "INVOKER: Redo successful. History size: 1. Redo size: 1";
        header "--- REDO 2 (Reapplies Delete) ---";
        "COMMAND: Executed Delete(' brown') -> 'The lazy quick fox.'";
        "INVOKER: Redo successful. History size: 2. Redo size: 0" ] /\
    content (editors w 0%nat) = "The lazy quick fox." /\
    commands w 3%nat = DeleteTextCommand 0%nat 14 20 (Some " brown") /\
    " brown" <> "brown ".
Proof.
  eexists. split; [vm_compute; reflexivity|].
  split; [vm_compute; reflexivity|].
  split; [vm_compute; reflexivity|].
  split; [vm_compute; reflexivity|discriminate].
Qed.

End CommandProperties.

(* ================================================================== *)
(** * Behavoral/state.py: properties *)
(* ================================================================== *)

Module StateProperties.
Import State PythonFacts.

Ltac run_player :=
  unfold press, press_play, press_pause, press_stop, play, pause, stop,
    StoppedState_play, StoppedState_pause, StoppedState_stop,
    PlayingState_play, PlayingState_pause, PlayingState_stop,
    PausedState_play, PausedState_pause, PausedState_stop,
    set_state, bind, get_player.

(** A cell marked no-op names the state the player is already in. *)
Lemma noop_stays (s : PlayerState) (a : Action) :
  is_noop s a = true -> table s a = s.
Proof. destruct s, a; simpl; congruence. Qed.

(** C2.  A new player starts in [StoppedState].  From every state, each of
    the three actions returns normally and leaves the player in the state
    the table names; in a no-op cell no player object is written at all; in
    every cell the other players are untouched. *)
Theorem state_table_complete :
  (forall w, exists w',
      MediaPlayers_init w = Ok (next_ref w) w' /\
      _state (players w' (next_ref w)) = StoppedState) /\
  (forall (a : Action) (self : ref) (w : World), exists w',
      press a self w = Ok tt w' /\
      _state (players w' self) = table (_state (players w self)) a /\
      (is_noop (_state (players w self)) a = true -> players w' = players w) /\
      (forall p, p <> self -> players w' p = players w p)) /\
  table StoppedState Play = PlayingState /\
  table StoppedState Pause = StoppedState /\
  table StoppedState Stop = StoppedState /\
  table PlayingState Play = PlayingState /\
  table PlayingState Pause = PausedState /\
  table PlayingState Stop = StoppedState /\
  table PausedState Play = PlayingState /\
  table PausedState Pause = PausedState /\
  table PausedState Stop = StoppedState.
Proof.
  split; [|split; [|repeat split]].
  - intros w. eexists. split; [reflexivity|]. cbn. now rewrite upd_same.
  - intros a self w. run_player.
    destruct a, (_state (players w self)) eqn:E; cbn;
      (eexists; split; [reflexivity|]; cbn; rewrite ?upd_same;
       repeat split; try congruence; try discriminate;
       intros p Hp; now rewrite upd_other).
Qed.

End StateProperties.

(* ================================================================== *)
(** * Behavioral/memento.py: properties *)
(* ================================================================== *)

Module MementoProperties.
Import Memento PythonFacts.

Lemma undo_short (self : ref) (w : World) :
  (length (_history (managers w self)) < 2)%nat ->
  exists w',
    undo self w = Ok None w' /\
    managers w' = managers w /\
    stdout w' = (stdout w ++ [cannot_undo])%list.
Proof.
  intros H. unfold undo, bind, get_history.
  destruct (Nat.ltb_spec (length (_history (managers w self))) 2); [|lia].
  cbn. eexists. repeat split.
Qed.

Lemma undo_two_or_more (self : ref) (w : World) (h : list FormState)
    (m1 m2 : FormState) :
  _history (managers w self) = (h ++ [m1; m2])%list ->
  exists w',
    undo self w = Ok (Some m1) w' /\
    _history (managers w' self) = (h ++ [m1])%list /\
    (forall r, r <> self -> managers w' r = managers w r) /\
    stdout w' = stdout w.
Proof.
  intros H.
  assert (H' : _history (managers w self) = append (append h m1) m2).
  { rewrite H. unfold append. now rewrite <- app_assoc. }
  assert (Hlen : (length (append (append h m1) m2) <? 2)%nat = false).
  { apply Nat.ltb_ge. rewrite !length_append_list. lia. }
  unfold undo. unfold bind at 1. unfold get_history at 1.
  rewrite H', Hlen.
  unfold bind at 1. unfold get_history at 1. rewrite H'.
  unfold bind at 1. rewrite pop_append. cbn [lift ret fst snd].
  unfold bind, set_history, get_history. cbn [managers].
  rewrite upd_same. cbn [_history]. rewrite last_item_append. cbn [lift ret].
  eexists. split; [reflexivity|]. cbn. rewrite upd_same.
  repeat split. intros r Hr. now rewrite upd_other.
Qed.

(** C8.  With at least two mementos saved, [undo] removes the last one and
    returns the one saved before it, printing nothing.  With fewer than two
    it returns [None], prints that it cannot undo, and leaves the history as
    it is.  So from exactly two snapshots one [undo] leaves a single
    snapshot, the popped one is gone without a trace, and the next [undo]
    returns [None]. *)
Theorem history_undo_pops_current (self : ref) (w : World) :
  (forall h m1 m2,
      _history (managers w self) = (h ++ [m1; m2])%list ->
      exists w',
        undo self w = Ok (Some m1) w' /\
        _history (managers w' self) = (h ++ [m1])%list /\
        stdout w' = stdout w) /\
  ((length (_history (managers w self)) < 2)%nat ->
      exists w',
        undo self w = Ok None w' /\
        managers w' = managers w /\
        stdout w' = (stdout w ++ [cannot_undo])%list) /\
  (forall m1 m2,
      _history (managers w self) = [m1; m2] ->
      exists w1 w2,
        undo self w = Ok (Some m1) w1 /\
        _history (managers w1 self) = [m1] /\
        stdout w1 = stdout w /\
        undo self w1 = Ok None w2 /\
        _history (managers w2 self) = [m1]).
Proof.
  split; [|split].
  - intros h m1 m2 H.
    destruct (undo_two_or_more self w h m1 m2 H) as [w' [E [Hh [_ Ho]]]].
    now exists w'.
  - apply undo_short.
  - intros m1 m2 H.
    destruct (undo_two_or_more self w [] m1 m2 H) as [w1 [E1 [Hh1 [_ Ho1]]]].
    cbn in Hh1.
    destruct (undo_short self w1) as [w2 [E2 [Hm2 _]]].
    { rewrite Hh1. simpl. lia. }
    exists w1, w2. repeat split; auto. now rewrite Hm2.
Qed.

Lemma history_undo_pops_current_witness :
  (exists w', undo 0%nat two_snapshots = Ok (Some snapshot_alice) w' /\
     _history (managers w' 0%nat) = [snapshot_alice] /\
     stdout w' = stdout two_snapshots) /\
  (exists w', undo 0%nat one_snapshot = Ok None w' /\
     managers w' = managers one_snapshot /\
     stdout w' = (stdout one_snapshot ++ [cannot_undo])%list) /\
  (exists w1 w2,
     undo 0%nat two_snapshots = Ok (Some snapshot_alice) w1 /\
     _history (managers w1 0%nat) = [snapshot_alice] /\
     stdout w1 = stdout two_snapshots /\
     undo 0%nat w1 = Ok None w2 /\
     _history (managers w2 0%nat) = [snapshot_alice]).
Proof.
  split; [|split].
  - exact (proj1 (history_undo_pops_current 0%nat two_snapshots)
             [] snapshot_alice snapshot_bob eq_refl).
  - apply (proj1 (proj2 (history_undo_pops_current 0%nat one_snapshot))).
    vm_compute. lia.
  - exact (proj2 (proj2 (history_undo_pops_current 0%nat two_snapshots))
             snapshot_alice snapshot_bob eq_refl).
Defined.

End MementoProperties.

(* ================================================================== *)
(** * Further properties of the three scripts *)
(* ================================================================== *)

Module SliceFacts.
Import PythonFacts.

Lemma adjust_index_range (n i : Z) :
  0 <= n -> 0 <= adjust_index n i <= n.
Proof.
  intros Hn. unfold adjust_index.
  destruct (Z.ltb_spec i 0).
  - destruct (Z.ltb_spec (i + n) 0); lia.
  - destruct (Z.leb_spec n i); lia.
Qed.

(** The clipped bound as a number of characters. *)
Lemma adjust_index_nat (c : string) (i : Z) :
  (Z.to_nat (adjust_index (len c) i) <= String.length c)%nat.
Proof.
  pose proof (adjust_index_range (len c) i (len_nonneg c)). unfold len in *. lia.
Qed.

Lemma slice_prefix_any (c : string) (j : Z) :
  slice c None (Some j) = substring 0 (Z.to_nat (adjust_index (len c) j)) c.
Proof. unfold slice. now rewrite Z.sub_0_r. Qed.

Lemma slice_suffix_any (c : string) (i : Z) :
  slice c (Some i) None
  = substring (Z.to_nat (adjust_index (len c) i))
      (String.length c - Z.to_nat (adjust_index (len c) i)) c.
Proof.
  pose proof (adjust_index_range (len c) i (len_nonneg c)).
  unfold slice. f_equal. unfold len in *. lia.
Qed.

Lemma slice_between_any (c : string) (i j : Z) :
  slice c (Some i) (Some j)
  = substring (Z.to_nat (adjust_index (len c) i))
      (Z.to_nat (adjust_index (len c) j) - Z.to_nat (adjust_index (len c) i)) c.
Proof.
  pose proof (adjust_index_range (len c) i (len_nonneg c)).
  pose proof (adjust_index_range (len c) j (len_nonneg c)).
  unfold slice. f_equal. lia.
Qed.

Lemma length_slice_prefix (c : string) (j : Z) :
  String.length (slice c None (Some j)) = Z.to_nat (adjust_index (len c) j).
Proof.
  rewrite slice_prefix_any, length_substring.
  pose proof (adjust_index_nat c j). lia.
Qed.

(** [c[:p] + c[p:] == c] for every integer [p]. *)
Lemma slice_split_any (c : string) (p : Z) :
  slice c None (Some p) ++ slice c (Some p) None = c.
Proof.
  rewrite slice_prefix_any, slice_suffix_any, substring_split.
  apply substring_whole. pose proof (adjust_index_nat c p). lia.
Qed.

(** [c[:i] + c[i:j] == c[:j]] when the clipped [i] is not after the clipped
    [j]. *)
Lemma slice_prefix_extend (c : string) (i j : Z) :
  adjust_index (len c) i <= adjust_index (len c) j ->
  slice c None (Some i) ++ slice c (Some i) (Some j) = slice c None (Some j).
Proof.
  intros H. pose proof (adjust_index_range (len c) i (len_nonneg c)).
  rewrite !slice_prefix_any, slice_between_any, substring_split.
  f_equal. lia.
Qed.



Lemma length_slice_between (c : string) (i j : Z) :
  String.length (slice c (Some i) (Some j))
  = (Z.to_nat (adjust_index (len c) j) - Z.to_nat (adjust_index (len c) i))%nat.
Proof.
  rewrite slice_between_any, length_substring.
  pose proof (adjust_index_nat c j). lia.
Qed.

Lemma length_slice_suffix (c : string) (i : Z) :
  String.length (slice c (Some i) None)
  = (String.length c - Z.to_nat (adjust_index (len c) i))%nat.
Proof. rewrite slice_suffix_any, length_substring. lia. Qed.

(** A slice whose clipped end is not after its clipped start is empty. *)
Lemma slice_reversed_empty (c : string) (i j : Z) :
  adjust_index (len c) j <= adjust_index (len c) i ->
  slice c (Some i) (Some j) = "".
Proof.
  intros H. rewrite slice_between_any.
  pose proof (adjust_index_range (len c) j (len_nonneg c)).
  replace (_ - _)%nat with 0%nat by lia. apply substring_zero_len.
Qed.


End SliceFacts.

Module ReceiverProperties.
Import Command CommandRuns PythonFacts CommandFacts SliceFacts.

(** X1.  [insert_text] loses no text, whatever integer the position is: the
    old content splits as [a ++ b] at the clipped position and the new
    content is [a ++ text ++ b]; no other editor changes. *)
Theorem insert_text_keeps_text (w : World) (self : ref) (text : string) (p : Z) :
  exists w' a b,
    insert_text self text p w = Ok tt w' /\
    content (editors w self) = a ++ b /\
    content (editors w' self) = a ++ text ++ b /\
    String.length a = Z.to_nat (adjust_index (len (content (editors w self))) p) /\
    (forall e, e <> self -> editors w' e = editors w e).
Proof.
  set (c := content (editors w self)).
  run. cbn. eexists. exists (slice c None (Some p)), (slice c (Some p) None).
  split; [reflexivity|]. cbn. rewrite upd_same. cbn. fold c.
  split; [symmetry; apply slice_split_any|].
  split; [reflexivity|].
  split; [apply length_slice_prefix|].
  intros e He. now apply upd_other.
Qed.

(** X2.  When the clipped start is not after the clipped end, [delete_text]
    cuts the content into [a ++ d ++ b], returns [d] and leaves [a ++ b]; the
    bounds may be negative or past the end. *)
Theorem delete_text_partition (w : World) (self : ref) (start end_ : Z) :
  let c := content (editors w self) in
  adjust_index (len c) start <= adjust_index (len c) end_ ->
  exists w' a d b,
    delete_text self start end_ w = Ok d w' /\
    c = a ++ d ++ b /\
    content (editors w' self) = a ++ b /\
    String.length a = Z.to_nat (adjust_index (len c) start) /\
    String.length d
      = (Z.to_nat (adjust_index (len c) end_)
         - Z.to_nat (adjust_index (len c) start))%nat /\
    (forall e, e <> self -> editors w' e = editors w e).
Proof.
  intros c H. run. cbn. eexists.
  exists (slice c None (Some start)), (slice c (Some start) (Some end_)),
         (slice c (Some end_) None).
  split; [reflexivity|]. cbn. rewrite upd_same. cbn. fold c.
  split.
  { rewrite <- append_assoc, slice_prefix_extend by exact H.
    symmetry. apply slice_split_any. }
  split; [reflexivity|].
  split; [apply length_slice_prefix|].
  split; [apply length_slice_between|].
  intros e He. now apply upd_other.
Qed.

Lemma delete_text_partition_witness :
  exists w' a d b,
    delete_text 0%nat (-4) (-1) sample_world = Ok d w' /\
    "The quick brown fox." = a ++ d ++ b /\
    content (editors w' 0%nat) = a ++ b /\
    String.length a = 16%nat /\
    String.length d = 3%nat /\
    (forall e, e <> 0%nat -> editors w' e = editors sample_world e).
Proof.
  apply (delete_text_partition sample_world 0%nat (-4) (-1)).
  vm_compute. discriminate.
Defined.



(** X4.  A delete command whose clipped end lies before its clipped start
    is not undone by [undo]: [execute] captures the empty string and makes
    the content longer, and [undo], re-inserting the empty string, leaves it
    so. *)
Theorem reversed_delete_not_undone (w : World) (r editor : ref)
    (start end_ : Z) (d : option string) :
  commands w r = DeleteTextCommand editor start end_ d ->
  let c := content (editors w editor) in
  adjust_index (len c) end_ < adjust_index (len c) start ->
  exists w',
    (Command_execute r ;; Command_undo r) w = Ok tt w' /\
    commands w' r = DeleteTextCommand editor start end_ (Some "") /\
    content (editors w' editor)
      = slice c None (Some start) ++ slice c (Some end_) None /\
    (String.length c < String.length (content (editors w' editor)))%nat.
Proof.
  intros Hc c H.
  destruct (Command_execute_spec r w) as [w1 [E1 [He1 [Hc1 _]]]].
  destruct (Command_undo_spec r w1) as [w2 [E2 [He2 [Hc2 _]]]].
  rewrite Hc in He1, Hc1.
  cbn [editor_of executed_content executed_command] in He1, Hc1.
  fold c in He1, Hc1.
  rewrite (slice_reversed_empty c start end_) in Hc1 by lia.
  assert (Hr1 : commands w1 r = DeleteTextCommand editor start end_ (Some ""))
    by now rewrite Hc1, upd_same.
  rewrite Hr1 in He2. cbn [editor_of undone_content] in He2.
  assert (Hcont : content (editors w2 editor)
                  = slice c None (Some start) ++ slice c (Some end_) None).
  { rewrite He2, upd_same. cbn [content]. rewrite He1, upd_same. cbn [content].
    cbn [String.append]. apply slice_split_any. }
  exists w2. split; [unfold bind; rewrite E1; exact E2|].
  split; [now rewrite Hc2|]. split; [exact Hcont|].
  rewrite Hcont, length_append, length_slice_prefix, length_slice_suffix.
  pose proof (adjust_index_range (len c) end_ (len_nonneg c)).
  pose proof (adjust_index_nat c start). lia.
Qed.

Lemma reversed_delete_not_undone_witness :
  exists w',
    (Command_execute 3%nat ;; Command_undo 3%nat) reversed_world = Ok tt w' /\
    commands w' 3%nat = DeleteTextCommand 0%nat 9 4 (Some "") /\
    content (editors w' 0%nat) = "The quick" ++ "quick brown fox." /\
    (String.length "The quick brown fox."
     < String.length (content (editors w' 0%nat)))%nat.
Proof.
  apply (reversed_delete_not_undone reversed_world 3%nat 0%nat 9 4 None).
  - reflexivity.
  - vm_compute. reflexivity.
Defined.

End ReceiverProperties.

Module InvokerRuns.
Import Command CommandRuns PythonFacts CommandFacts.

Lemma execute_all_stacks (cmds : list ref) :
  forall (iv : ref) (w : World),
  exists w',
    execute_all iv cmds w = Ok tt w' /\
    _history (invokers w' iv) = (_history (invokers w iv) ++ cmds)%list /\
    _redo_stack (invokers w' iv)
      = match cmds with [] => _redo_stack (invokers w iv) | _ => [] end /\
    (forall i, i <> iv -> invokers w' i = invokers w i).
Proof.
  induction cmds as [|c rest IH]; intros iv w.
  - exists w. cbn. rewrite app_nil_r. repeat split.
  - destruct (execute_command_spec iv c w) as [w0 [w1 [_ [E1 [_ [_ [_ Hi1]]]]]]].
    destruct (IH iv w1) as [w2 [E2 [Hh2 [Hr2 Hi2]]]].
    exists w2. split.
    { cbn [execute_all]. unfold bind. rewrite E1. exact E2. }
    split.
    { rewrite Hh2, Hi1, upd_same. cbn [_history]. unfold append.
      now rewrite <- app_assoc. }
    split.
    { rewrite Hr2, Hi1, upd_same. cbn [_redo_stack]. now destruct rest. }
    intros i Hi. rewrite Hi2, Hi1 by assumption. now apply upd_other.
Qed.

Lemma undo_times_stacks (cmds : list ref) :
  forall (h : list ref) (iv : ref) (w : World),
  _history (invokers w iv) = (h ++ cmds)%list ->
  exists w',
    undo_times iv (length cmds) w = Ok tt w' /\
    _history (invokers w' iv) = h /\
    _redo_stack (invokers w' iv)
      = (_redo_stack (invokers w iv) ++ rev cmds)%list /\
    (forall i, i <> iv -> invokers w' i = invokers w i).
Proof.
  induction cmds as [|c cs IH] using rev_ind; intros h iv w Hh.
  - exists w. cbn. rewrite app_nil_r in *. repeat split; auto.
  - rewrite app_assoc in Hh.
    destruct (CommandInvoker_undo_spec iv w (h ++ cs) c Hh)
      as [w1 [E1 [_ [_ [_ Hi1]]]]].
    destruct (IH h iv w1) as [w2 [E2 [Hh2 [Hr2 Hi2]]]].
    { now rewrite Hi1, upd_same. }
    exists w2. split.
    { rewrite length_app, Nat.add_comm. cbn [length Nat.add undo_times].
      unfold bind. rewrite E1. exact E2. }
    split; [exact Hh2|]. split.
    { rewrite Hr2, Hi1, upd_same. cbn [_redo_stack]. unfold append.
      rewrite rev_app_distr. cbn. now rewrite <- app_assoc. }
    intros i Hi. rewrite Hi2, Hi1 by assumption. now apply upd_other.
Qed.

Lemma redo_times_stacks (cmds : list ref) :
  forall (rs : list ref) (iv : ref) (w : World),
  _redo_stack (invokers w iv) = (rs ++ rev cmds)%list ->
  exists w',
    redo_times iv (length cmds) w = Ok tt w' /\
    _redo_stack (invokers w' iv) = rs /\
    _history (invokers w' iv) = (_history (invokers w iv) ++ cmds)%list /\
    (forall i, i <> iv -> invokers w' i = invokers w i).
Proof.
  induction cmds as [|c cs IH]; intros rs iv w Hr.
  - exists w. cbn in *. rewrite app_nil_r in *. repeat split; auto.
  - cbn [rev] in Hr. rewrite app_assoc in Hr.
    destruct (CommandInvoker_redo_spec iv w (rs ++ rev cs) c Hr)
      as [w1 [E1 [_ [_ [_ Hi1]]]]].
    destruct (IH rs iv w1) as [w2 [E2 [Hr2 [Hh2 Hi2]]]].
    { now rewrite Hi1, upd_same. }
    exists w2. split.
    { cbn [length redo_times]. unfold bind. rewrite E1. exact E2. }
    split; [exact Hr2|]. split.
    { rewrite Hh2, Hi1, upd_same. cbn [_history]. unfold append.
      now rewrite <- app_assoc. }
    intros i Hi. rewrite Hi2, Hi1 by assumption. now apply upd_other.
Qed.

(** X5.  Whatever the commands do to the text, the stacks follow the order of
    the calls: executing [cmds] appends them to the history and empties the
    redo stack; [k] undos move the last [k] of them, last first, onto the redo
    stack; [k] redos bring the invoker back to where it was after the
    executions. *)
Theorem stacks_follow_lifo (iv : ref) (cmds : list ref) (k : nat) (w : World) :
  cmds <> [] -> (k <= length cmds)%nat ->
  exists w1 w2 w3,
    execute_all iv cmds w = Ok tt w1 /\
    _history (invokers w1 iv) = (_history (invokers w iv) ++ cmds)%list /\
    _redo_stack (invokers w1 iv) = [] /\
    undo_times iv k w1 = Ok tt w2 /\
    _history (invokers w2 iv)
      = (_history (invokers w iv) ++ firstn (length cmds - k) cmds)%list /\
    _redo_stack (invokers w2 iv) = rev (skipn (length cmds - k) cmds) /\
    redo_times iv k w2 = Ok tt w3 /\
    invokers w3 iv = invokers w1 iv.
Proof.
  intros Hne Hk.
  destruct (execute_all_stacks cmds iv w) as [w1 [E1 [Hh1 [Hr1 _]]]].
  assert (Hr1' : _redo_stack (invokers w1 iv) = [])
    by (rewrite Hr1; destruct cmds; [contradiction|reflexivity]).
  set (n := length cmds) in *.
  set (kept := firstn (n - k) cmds).
  set (undone := skipn (n - k) cmds).
  assert (Hsplit : cmds = (kept ++ undone)%list)
    by (symmetry; apply firstn_skipn).
  assert (Hlen : length undone = k).
  { unfold undone. rewrite length_skipn. fold n. lia. }
  destruct (undo_times_stacks undone (_history (invokers w iv) ++ kept) iv w1)
    as [w2 [E2 [Hh2 [Hr2 _]]]].
  { rewrite Hh1, <- app_assoc. now rewrite <- Hsplit. }
  rewrite Hlen in E2. rewrite Hr1' in Hr2. cbn in Hr2.
  destruct (redo_times_stacks undone [] iv w2 Hr2) as [w3 [E3 [Hr3 [Hh3 _]]]].
  rewrite Hlen in E3.
  exists w1, w2, w3. repeat split; auto.
  assert (Hh3' : _history (invokers w3 iv) = _history (invokers w1 iv)).
  { rewrite Hh3, Hh2, Hh1, <- app_assoc. now rewrite <- Hsplit. }
  rewrite <- Hr3 in Hr1'.
  destruct (invokers w3 iv) as [h3 r3], (invokers w1 iv) as [h1' r1'].
  cbn in Hh3', Hr1'. congruence.
Qed.

Lemma stacks_follow_lifo_witness :
  exists w1 w2 w3,
    execute_all 0%nat [0%nat; 1%nat; 2%nat] sample_world = Ok tt w1 /\
    _history (invokers w1 0%nat) = [0%nat; 1%nat; 2%nat] /\
    _redo_stack (invokers w1 0%nat) = [] /\
    undo_times 0%nat 2 w1 = Ok tt w2 /\
    _history (invokers w2 0%nat) = [0%nat] /\
    _redo_stack (invokers w2 0%nat) = [2%nat; 1%nat] /\
    redo_times 0%nat 2 w2 = Ok tt w3 /\
    invokers w3 0%nat = invokers w1 0%nat.
Proof.
  apply (stacks_follow_lifo 0%nat [0%nat; 1%nat; 2%nat] 2 sample_world).
  - discriminate.
  - simpl. lia.
Defined.

(** Every call returns. *)
Lemma call_returns (iv : ref) (c : Call) (w : World) :
  exists w', call iv c w = Ok tt w'.
Proof.
  destruct c as [r| |]; cbn [call].
  - destruct (execute_command_spec iv r w) as [w0 [w1 [_ [E _]]]]. now exists w1.
  - destruct (undo_total iv w) as [w' [E _]]. now exists w'.
  - destruct (redo_total iv w) as [w' [E _]]. now exists w'.
Qed.

Lemma call_step (iv : ref) (c : Call) (w : World) :
  exists w',
    call iv c w = Ok tt w' /\
    (forall i, i <> iv -> invokers w' i = invokers w i) /\
    (forall r, In r (stacks w' iv) -> In r (stacks w iv) \/ c = CallExecute r).
Proof.
  unfold stacks. destruct c as [r| |]; cbn [call].
  - destruct (execute_command_spec iv r w) as [w0 [w1 [_ [E [_ [_ [_ Hi]]]]]]].
    exists w1. split; [exact E|]. split.
    + intros i Hne. rewrite Hi. now apply upd_other.
    + intros r'. rewrite Hi, upd_same. cbn [_history _redo_stack].
      unfold append. rewrite app_nil_r, !in_app_iff. cbn.
      intros [H|[->|[]]]; auto.
  - destruct (truthy (_history (invokers w iv))) eqn:T.
    + apply truthy_inv in T as [h [c Hh]].
      destruct (CommandInvoker_undo_spec iv w h c Hh) as [w' [E [_ [_ [_ Hi]]]]].
      exists w'. split; [exact E|]. split.
      * intros i Hne. rewrite Hi. now apply upd_other.
      * intros r. rewrite Hi, upd_same, Hh. cbn [_history _redo_stack].
        unfold append. rewrite !in_app_iff. cbn. tauto.
    + apply truthy_false in T.
      destruct (undo_empty iv w T) as [w' [E [_ [_ [Hi _]]]]].
      exists w'. split; [exact E|]. rewrite Hi. auto.
  - destruct (truthy (_redo_stack (invokers w iv))) eqn:T.
    + apply truthy_inv in T as [rs [c Hr]].
      destruct (CommandInvoker_redo_spec iv w rs c Hr) as [w' [E [_ [_ [_ Hi]]]]].
      exists w'. split; [exact E|]. split.
      * intros i Hne. rewrite Hi. now apply upd_other.
      * intros r. rewrite Hi, upd_same, Hr. cbn [_history _redo_stack].
        unfold append. rewrite !in_app_iff. cbn. tauto.
    + apply truthy_false in T.
      destruct (redo_empty iv w T) as [w' [E [_ [_ [Hi _]]]]].
      exists w'. split; [exact E|]. rewrite Hi. auto.
Qed.

(** X6.  No sequence of [execute_command], [undo] and [redo] calls on an
    invoker raises: each [pop] is guarded.  The calls leave every other
    invoker alone, and a command found on the stacks afterwards was there
    before or was executed by one of the calls. *)
Theorem calls_never_raise (iv : ref) (cs : list Call) (w : World) :
  exists w',
    call_all iv cs w = Ok tt w' /\
    (forall i, i <> iv -> invokers w' i = invokers w i) /\
    (forall r, In r (stacks w' iv) ->
               In r (stacks w iv) \/ In (CallExecute r) cs).
Proof.
  revert w. induction cs as [|c rest IH]; intros w.
  - exists w. cbn. auto.
  - destruct (call_step iv c w) as [w1 [E1 [Hi1 Hs1]]].
    destruct (IH w1) as [w2 [E2 [Hi2 Hs2]]].
    exists w2. split.
    { cbn [call_all]. unfold bind. rewrite E1. exact E2. }
    split.
    + intros i Hne. now rewrite Hi2, Hi1.
    + intros r Hr. destruct (Hs2 r Hr) as [H|H].
      * destruct (Hs1 r H) as [H'|H']; [now left|right; now left].
      * right. now right.
Qed.

End InvokerRuns.

Module Replay.
Import Command CommandRuns PythonFacts CommandFacts InvokerRuns.

Lemma same_parameters_refl (c : Command) : same_parameters c c.
Proof. split; auto. Qed.

Lemma same_parameters_trans (a b c : Command) :
  same_parameters a b -> same_parameters b c -> same_parameters a c.
Proof.
  intros [H1 H2] [H3 H4]. split; [congruence|].
  intros x. destruct (H2 x), (H4 x). split; congruence.
Qed.

Lemma same_parameters_executed (c : Command) (x : string) :
  same_parameters (executed_command c x) c.
Proof. destruct c; split; auto. Qed.

(** [execute_all] changes a command object only by executing it. *)
Lemma execute_all_commands (cmds : list ref) :
  forall (iv : ref) (w : World),
  exists w',
    execute_all iv cmds w = Ok tt w' /\
    (forall r, ~ In r cmds -> commands w' r = commands w r) /\
    (forall r, same_parameters (commands w' r) (commands w r)).
Proof.
  induction cmds as [|c rest IH]; intros iv w.
  - exists w. cbn. repeat split; auto.
  - destruct (execute_command_spec iv c w) as [w0 [w1 [E0 [E1 [_ [Hc1 _]]]]]].
    destruct (Command_execute_spec c w) as [w0' [E0' [_ [Hc0 _]]]].
    rewrite E0 in E0'. injection E0' as <-.
    destruct (IH iv w1) as [w2 [E2 [Hc2 Hp2]]].
    exists w2. split.
    { cbn [execute_all]. unfold bind. rewrite E1. exact E2. }
    assert (Hstep : forall r, same_parameters (commands w1 r) (commands w r)).
    { intros r. rewrite Hc1, Hc0. unfold upd.
      destruct (Nat.eqb_spec r c) as [->|_].
      - apply same_parameters_executed.
      - apply same_parameters_refl. }
    split.
    + intros r Hr. rewrite Hc2 by (intros ?; apply Hr; now right).
      rewrite Hc1, Hc0. apply upd_other. intros ->. apply Hr. now left.
    + intros r. eapply same_parameters_trans; [apply Hp2|apply Hstep].
Qed.

(** [undo] never writes a command object. *)
Lemma undo_times_commands (n : nat) :
  forall (iv : ref) (w : World),
  exists w', undo_times iv n w = Ok tt w' /\ commands w' = commands w.
Proof.
  induction n as [|n IH]; intros iv w.
  - now exists w.
  - assert (H : exists w1, CommandInvoker_undo iv w = Ok tt w1 /\
                           commands w1 = commands w).
    { destruct (truthy (_history (invokers w iv))) eqn:T.
      - apply truthy_inv in T as [h [c Hh]].
        destruct (CommandInvoker_undo_spec iv w h c Hh) as [w1 [E [_ [Hc _]]]].
        now exists w1.
      - apply truthy_false in T.
        destruct (undo_empty iv w T) as [w1 [E [_ [Hc _]]]]. now exists w1. }
    destruct H as [w1 [E1 Hc1]].
    destruct (IH iv w1) as [w2 [E2 Hc2]].
    exists w2. split; [|congruence].
    cbn [undo_times]. unfold bind. rewrite E1. exact E2.
Qed.

Lemma redo_replay (cmds : list ref) :
  forall (iv iv' : ref) (wa wb wa' : World) (rs : list ref),
  (forall e, editors wb e = editors wa e) ->
  (forall r, same_parameters (commands wb r) (commands wa r)) ->
  _redo_stack (invokers wb iv) = (rs ++ rev cmds)%list ->
  execute_all iv' cmds wa = Ok tt wa' ->
  exists wb',
    redo_times iv (length cmds) wb = Ok tt wb' /\
    (forall e, editors wb' e = editors wa' e) /\
    (forall r, In r cmds -> commands wb' r = commands wa' r) /\
    (forall r, ~ In r cmds -> commands wb' r = commands wb r).
Proof.
  induction cmds as [|c cs IH]; intros iv iv' wa wb wa' rs He Hp Hr Ea.
  - cbn in Ea. injection Ea as <-. exists wb. cbn. repeat split; auto.
    intros r [].
  - cbn [execute_all] in Ea. apply bind_ok_inv in Ea as [[] [wa1 [Ea1 Ea2]]].
    destruct (execute_command_spec iv' c wa)
      as [wa0 [wa1' [Ea0 [Ea1' [Hea1 [Hca1 _]]]]]].
    rewrite Ea1 in Ea1'. injection Ea1' as <-.
    destruct (Command_execute_spec c wa) as [wa0' [Ea0' [Hea0 [Hca0 _]]]].
    rewrite Ea0 in Ea0'. injection Ea0' as <-.
    cbn [rev] in Hr. rewrite app_assoc in Hr.
    destruct (CommandInvoker_redo_spec iv wb (rs ++ rev cs) c Hr)
      as [wb1 [Eb1 [Heb1 [Hcb1 [_ Hib1]]]]].
    destruct (Hp c) as [Hed Hx].
    assert (Hcont : content (editors wb (editor_of (commands wb c)))
                    = content (editors wa (editor_of (commands wa c))))
      by now rewrite Hed, He.
    destruct (Hx (content (editors wa (editor_of (commands wa c)))))
      as [Hxc Hxm].
    assert (He1 : forall e, editors wb1 e = editors wa1 e).
    { intros e. rewrite Heb1, Hea1, Hea0, Hcont, Hxc, Hed.
      unfold upd. destruct (Nat.eqb e (editor_of (commands wa c))); auto. }
    assert (Hc1 : commands wb1 c = commands wa1 c).
    { rewrite Hcb1, Hca1, Hca0, !upd_same, Hcont. exact Hxm. }
    assert (Hc1' : forall r, r <> c -> commands wb1 r = commands wb r).
    { intros r Hne. rewrite Hcb1. now apply upd_other. }
    assert (Hp1 : forall r, same_parameters (commands wb1 r) (commands wa1 r)).
    { intros r. destruct (Nat.eq_dec r c) as [->|Hne].
      - rewrite Hc1. apply same_parameters_refl.
      - rewrite Hc1' by assumption. rewrite Hca1, Hca0, upd_other by assumption.
        apply Hp. }
    destruct (IH iv iv' wa1 wb1 wa' rs He1 Hp1) as [wb' [Eb' [He' [Hin' Hout']]]].
    { now rewrite Hib1, upd_same. }
    { exact Ea2. }
    exists wb'. split.
    { cbn [length redo_times]. unfold bind. rewrite Eb1. exact Eb'. }
    split; [exact He'|]. split.
    + intros r Hin. destruct (in_dec Nat.eq_dec r cs) as [Hcs|Hcs].
      * now apply Hin'.
      * destruct Hin as [<-|Hin]; [|contradiction].
        rewrite Hout' by assumption. rewrite Hc1.
        destruct (execute_all_commands cs iv' wa1) as [wa2 [E2 [Hf _]]].
        rewrite Ea2 in E2. injection E2 as <-.
        symmetry. now apply Hf.
    + intros r Hr'. rewrite Hout' by (intros ?; apply Hr'; now right).
      apply Hc1'. intros ->. apply Hr'. now left.
Qed.

(** X7.  After an invoker has executed distinct command objects, each in
    range when executed, undoing all of them and redoing all of them gives
    back the state right after the executions: every editor, every command
    object and both stacks. *)
Theorem redo_replays (iv : ref) (cmds : list ref) (w : World) :
  NoDup cmds -> well_ranged iv cmds w = true ->
  exists w1 w3,
    execute_all iv cmds w = Ok tt w1 /\
    (undo_times iv (length cmds) ;; redo_times iv (length cmds)) w1 = Ok tt w3 /\
    (forall e, editors w3 e = editors w1 e) /\
    (forall r, commands w3 r = commands w1 r) /\
    invokers w3 iv = invokers w1 iv.
Proof.
  intros Hnd Hwr.
  destruct (roundtrip_run cmds iv w Hnd Hwr) as [w2 [E [He2 _]]].
  apply bind_ok_inv in E as [[] [w1 [E1 E2]]].
  destruct (undo_times_commands (length cmds) iv w1) as [w2' [E2' Hc2]].
  rewrite E2 in E2'. injection E2' as <-.
  destruct (execute_all_commands cmds iv w) as [w1' [E1' [_ Hp1]]].
  rewrite E1 in E1'. injection E1' as <-.
  destruct (execute_all_stacks cmds iv w) as [w1' [E1' [Hh1 [Hr1 _]]]].
  rewrite E1 in E1'. injection E1' as <-.
  destruct (undo_times_stacks cmds (_history (invokers w iv)) iv w1 Hh1)
    as [w2' [E2' [Hh2 [Hr2 _]]]].
  rewrite E2 in E2'. injection E2' as <-.
  destruct (redo_replay cmds iv iv w w2 w1 (_redo_stack (invokers w1 iv)))
    as [w3 [E3 [He3 [Hin3 Hout3]]]]; auto.
  { intros r. rewrite Hc2. apply Hp1. }
  destruct (redo_times_stacks cmds (_redo_stack (invokers w1 iv)) iv w2 Hr2)
    as [w3' [E3' [Hr3 [Hh3 _]]]].
  rewrite E3 in E3'. injection E3' as <-.
  exists w1, w3. split; [exact E1|]. split.
  { unfold bind. rewrite E2. exact E3. }
  split; [exact He3|]. split.
  - intros r. destruct (in_dec Nat.eq_dec r cmds) as [Hr|Hr].
    + now apply Hin3.
    + rewrite Hout3 by assumption. now rewrite Hc2.
  - rewrite Hh2, <- Hh1 in Hh3.
    destruct (invokers w3 iv), (invokers w1 iv). cbn in *. congruence.
Qed.

Lemma redo_replays_witness :
  exists w1 w3,
    execute_all 0%nat [0%nat; 1%nat] sample_world = Ok tt w1 /\
    (undo_times 0%nat 2 ;; redo_times 0%nat 2) w1 = Ok tt w3 /\
    (forall e, editors w3 e = editors w1 e) /\
    (forall r, commands w3 r = commands w1 r) /\
    invokers w3 0%nat = invokers w1 0%nat.
Proof.
  apply (redo_replays 0%nat [0%nat; 1%nat] sample_world).
  - repeat constructor; simpl; intuition discriminate.
  - reflexivity.
Defined.

End Replay.

Module PlayerRuns.
Import State StateRuns PythonFacts StateProperties.

Lemma press_spec (a : Action) (self : ref) (w : World) :
  exists w' line,
    press a self w = Ok tt w' /\
    _state (players w' self) = table (_state (players w self)) a /\
    (forall p, p <> self -> players w' p = players w p) /\
    next_ref w' = next_ref w /\
    ((players w' = players w /\
      table (_state (players w self)) a = _state (players w self) /\
      stdout w' = (stdout w ++ [line])%list) \/
     (table (_state (players w self)) a <> _state (players w self) /\
      stdout w'
        = (stdout w ++ [line; transition_line
                                (table (_state (players w self)) a)])%list)).
Proof.
  run_player.
  destruct a, (_state (players w self)) eqn:E; cbn;
    (eexists; eexists; split; [reflexivity|]; cbn; rewrite ?upd_same;
     split; [try reflexivity; try congruence|];
     split; [intros p Hp; rewrite ?upd_other by assumption; reflexivity|];
     split; [reflexivity|]);
    first [ left; repeat split; congruence
          | right; split; [discriminate|];
            rewrite <- app_assoc; reflexivity ].
Qed.

(** X8.  Every press prints one line of the state handler.  Either the state
    stays and no player object is written, or the state changes and the line
    of [set_state] naming the new state follows: no handler calls
    [set_state] with the state the player is already in. *)
Theorem press_prints_transition_iff_changed (a : Action) (self : ref)
    (w : World) :
  exists w' line,
    press a self w = Ok tt w' /\
    ((_state (players w' self) = _state (players w self) /\
      players w' = players w /\
      stdout w' = (stdout w ++ [line])%list) \/
     (_state (players w' self) <> _state (players w self) /\
      stdout w'
        = (stdout w ++ [line; transition_line (_state (players w' self))])%list)).
Proof.
  destruct (press_spec a self w) as [w' [line [E [Hs [_ [_ H]]]]]].
  exists w', line. split; [exact E|].
  destruct H as [[Hp [Ht Ho]]|[Ht Ho]].
  - left. repeat split; congruence.
  - right. rewrite Hs. split; assumption.
Qed.

Lemma press_all_spec (actions : list Action) :
  forall (self : ref) (w : World),
  exists w',
    press_all self actions w = Ok tt w' /\
    _state (players w' self) = fold_left table actions (_state (players w self)) /\
    (forall p, p <> self -> players w' p = players w p).
Proof.
  induction actions as [|a rest IH]; intros self w.
  - exists w. cbn. auto.
  - destruct (press_spec a self w) as [w1 [line [E1 [Hs1 [Hp1 _]]]]].
    destruct (IH self w1) as [w2 [E2 [Hs2 Hp2]]].
    exists w2. split.
    { cbn [press_all]. unfold bind. rewrite E1. exact E2. }
    split.
    + cbn [fold_left]. now rewrite Hs2, Hs1.
    + intros p Hp. now rewrite Hp2, Hp1.
Qed.

(** X9.  After any sequence of presses that ends with play the player is
    playing, after one that ends with stop it is stopped, and after one that
    ends with pause it is not playing; other players are untouched. *)
Theorem last_press_decides (actions : list Action) (a : Action) (self : ref)
    (w : World) :
  exists w',
    press_all self (actions ++ [a]) w = Ok tt w' /\
    (forall p, p <> self -> players w' p = players w p) /\
    match a with
    | Play => _state (players w' self) = PlayingState
    | Stop => _state (players w' self) = StoppedState
    | Pause => _state (players w' self) <> PlayingState
    end.
Proof.
  destruct (press_all_spec (actions ++ [a]) self w) as [w' [E [Hs Hp]]].
  exists w'. split; [exact E|]. split; [exact Hp|].
  rewrite Hs, fold_left_app. cbn.
  destruct a, (fold_left table actions (_state (players w self)));
    cbn; congruence.
Qed.

(** X10.  No state is a dead end: from every state, every state is reached
    by at most two presses. *)
Theorem every_state_reachable (s t : PlayerState) :
  exists actions,
    (length actions <= 2)%nat /\
    forall (self : ref) (w : World),
      _state (players w self) = s ->
      exists w',
        press_all self actions w = Ok tt w' /\
        _state (players w' self) = t.
Proof.
  exists (match s, t with
          | StoppedState, StoppedState => []
          | PlayingState, PlayingState => []
          | PausedState, PausedState => []
          | _, StoppedState => [Stop]
          | _, PlayingState => [Play]
          | PlayingState, PausedState => [Pause]
          | StoppedState, PausedState => [Play; Pause]
          end).
  split; [destruct s, t; simpl; lia|].
  intros self w Hs.
  match goal with |- context [press_all self ?acts w] =>
    destruct (press_all_spec acts self w) as [w' [E [Hs' _]]] end.
  exists w'. split; [exact E|]. rewrite Hs', Hs.
  destruct s, t; reflexivity.
Qed.

Lemma every_state_reachable_witness :
  exists actions,
    (length actions <= 2)%nat /\
    exists w',
      press_all 0%nat actions new_player_world = Ok tt w' /\
      _state (players w' 0%nat) = PausedState.
Proof.
  destruct (every_state_reachable StoppedState PausedState) as [actions [Hl H]].
  exists actions. split; [exact Hl|]. apply H. reflexivity.
Defined.

End PlayerRuns.

Module CaretakerRuns.
Import Memento FormEditing PythonFacts MementoProperties.

Lemma firstn_two_more {A : Type} (j : nat) (l : list A) (a b : A) :
  (j <= S (length l))%nat ->
  firstn j (l ++ [a; b]) = firstn j (l ++ [a]).
Proof.
  intros H. rewrite !firstn_app.
  destruct (j - length l)%nat as [|[|n]] eqn:E;
    [reflexivity|reflexivity|exfalso; lia].
Qed.

Lemma undo_keeps_managers_short (self : ref) (w : Memento.World) :
  (length (_history (managers w self)) < 2)%nat ->
  exists w', Memento.undo self w = Ok None w' /\ managers w' = managers w.
Proof.
  intros H. destruct (undo_short self w H) as [w' [E [Hm _]]]. now exists w'.
Qed.

(** A list is short, or ends with two elements. *)
Lemma two_last {A : Type} (l : list A) :
  (length l < 2)%nat \/ exists l' a b, l = (l' ++ [a; b])%list.
Proof.
  destruct l as [|x l] using rev_ind; [left; simpl; lia|].
  destruct l as [|y l _] using rev_ind; [left; simpl; lia|].
  right. exists l, y, x. now rewrite <- app_assoc.
Qed.

(** X11.  What [k] calls of the caretaker's [undo] return, for a history
    [h]: the saved mementos from the last but one backwards, then [None] for
    good.  The memento saved last is never returned, and the first one is
    never removed: the history ends as the first [len(h) - min(k, len(h)-1)]
    mementos. *)
Theorem undo_times_results (k : nat) :
  forall (self : ref) (w : Memento.World),
  let h := _history (managers w self) in
  exists w',
    undo_times self k w
      = Ok (map Some (firstn k (tl (rev h)))
              ++ repeat None (k - (length h - 1)))%list w' /\
    _history (managers w' self)
      = firstn (length h - Nat.min k (length h - 1)) h.
Proof.
  induction k as [|k IH]; intros self w h.
  - exists w. cbn. split; [reflexivity|].
    rewrite Nat.sub_0_r. symmetry. apply firstn_all.
  - destruct (two_last h) as [Hshort|[h' [m1 [m2 Hh]]]].
    + destruct (undo_keeps_managers_short self w Hshort) as [w1 [E1 Hm1]].
      destruct (IH self w1) as [w2 [E2 Hh2]].
      rewrite Hm1 in E2, Hh2. fold h in E2, Hh2.
      assert (Htl : tl (rev h) = []).
      { destruct h as [|a [|b h'']]; try reflexivity. simpl in Hshort. lia. }
      rewrite Htl in *. rewrite firstn_nil in *. cbn [map app] in *.
      replace (length h - 1)%nat with 0%nat in * by lia.
      rewrite Nat.sub_0_r, Nat.min_0_r in *.
      exists w2. split; [|exact Hh2].
      cbn [undo_times]. unfold bind. rewrite E1, E2. reflexivity.
    + destruct (undo_two_or_more self w h' m1 m2 Hh) as [w1 [E1 [Hh1 _]]].
      destruct (IH self w1) as [w2 [E2 Hh2]].
      rewrite Hh1 in E2, Hh2.
      rewrite rev_app_distr in E2. cbn [rev app tl] in E2.
      rewrite length_app in E2, Hh2. cbn [length] in E2, Hh2.
      exists w2. split.
      * cbn [undo_times]. unfold bind. rewrite E1, E2. unfold ret.
        rewrite Hh, rev_app_distr, length_app. cbn [rev app tl length firstn map].
        replace (S k - (length h' + 2 - 1))%nat
          with (k - (length h' + 1 - 1))%nat by lia.
        reflexivity.
      * rewrite Hh2, Hh, length_app. cbn [length].
        replace (length h' + 2 - Nat.min (S k) (length h' + 2 - 1))%nat
          with (length h' + 1 - Nat.min k (length h' + 1 - 1))%nat by lia.
        symmetry. apply firstn_two_more. lia.
Qed.

End CaretakerRuns.

Module OriginatorFacts.
Import Memento FormEditing PythonFacts MementoProperties.

Ltac run_form :=
  unfold update_field, createMemento, restoreMemento, FormEditor_init, state,
    save_state, new_dict, fresh, print, lift_caretaker, Memento.save_state,
    Memento.get_history, Memento.set_history,
    Memento.print, Memento.fresh, get_editor, set_editor, get_dict, set_dict,
    bind, ret.

Lemma dict_get_set_same (d : Dict) (k v : string) :
  dict_get (dict_set d k v) k = Some v.
Proof.
  induction d as [|[k0 v0] d IH]; simpl.
  - now rewrite String.eqb_refl.
  - destruct (String.eqb k0 k) eqn:E; simpl; rewrite E; auto.
Qed.

Lemma dict_get_set_other (d : Dict) (k k' v : string) :
  k' <> k -> dict_get (dict_set d k v) k' = dict_get d k'.
Proof.
  intros Hne. induction d as [|[k0 v0] d IH]; simpl.
  - destruct (String.eqb_spec k k'); [congruence|reflexivity].
  - destruct (String.eqb_spec k0 k) as [->|Hk]; simpl.
    + destruct (String.eqb_spec k k'); [congruence|reflexivity].
    + destruct (String.eqb k0 k'); auto.
Qed.

Lemma keys_set_present (d : Dict) (k v : string) :
  dict_get d k <> None -> keys (dict_set d k v) = keys d.
Proof.
  induction d as [|[k0 v0] d IH]; simpl; [congruence|].
  destruct (String.eqb_spec k0 k) as [->|Hk]; simpl; intros H.
  - reflexivity.
  - f_equal. now apply IH.
Qed.

Lemma keys_set_absent (d : Dict) (k v : string) :
  dict_get d k = None -> keys (dict_set d k v) = (keys d ++ [k])%list.
Proof.
  induction d as [|[k0 v0] d IH]; simpl; [reflexivity|].
  destruct (String.eqb_spec k0 k) as [->|Hk]; simpl; intros H.
  - discriminate.
  - f_equal. now apply IH.
Qed.

Lemma dict_get_in_keys (d : Dict) (k : string) :
  dict_get d k <> None <-> In k (keys d).
Proof.
  induction d as [|[k0 v0] d IH]; simpl; [tauto|].
  destruct (String.eqb_spec k0 k) as [->|Hk].
  - split; [auto|congruence].
  - rewrite IH. split; [auto|]. intros [H|H]; [contradiction|assumption].
Qed.

(** A dict keeps its keys distinct under assignment. *)
Lemma keys_set_nodup (d : Dict) (k v : string) :
  NoDup (keys d) -> NoDup (keys (dict_set d k v)).
Proof.
  intros H. destruct (dict_get d k) eqn:E.
  - rewrite keys_set_present by congruence. exact H.
  - rewrite keys_set_absent by exact E.
    apply NoDup_app; [exact H|repeat constructor; simpl; tauto|].
    intros x Hx [<-|[]]. apply dict_get_in_keys in Hx. congruence.
Qed.

Section WithRepr.
Variable repr_dict : Dict -> string.

Lemma update_field_spec (self : ref) (f v : string) (w : World) :
  exists w',
    update_field repr_dict self f v w = Ok tt w' /\
    _field_values (form_editors w' self) = _field_values (form_editors w self) /\
    dicts w' = upd (dicts w) (_field_values (form_editors w self))
                 (dict_set (fields w self) f v) /\
    (forall e, e <> self -> form_editors w' e = form_editors w e) /\
    managers (caretakers w') = managers (caretakers w) /\
    next_ref (caretakers w') = next_ref (caretakers w).
Proof.
  run_form. cbn. rewrite !upd_same. cbn.
  eexists. split; [reflexivity|]. cbn. rewrite upd_same. cbn.
  repeat split. intros e He. now rewrite !upd_other.
Qed.

Lemma fields_after_update (self : ref) (f v : string) (w w' : World) :
  _field_values (form_editors w' self) = _field_values (form_editors w self) ->
  dicts w' = upd (dicts w) (_field_values (form_editors w self))
               (dict_set (fields w self) f v) ->
  fields w' self = dict_set (fields w self) f v.
Proof. intros H1 H2. unfold fields. now rewrite H1, H2, upd_same. Qed.

Lemma update_fields_spec (changes : list (string * string)) :
  forall (self : ref) (w : World),
  exists w',
    update_fields repr_dict self changes w = Ok tt w' /\
    _field_values (form_editors w' self) = _field_values (form_editors w self) /\
    fields w' self = dict_set_all (fields w self) changes /\
    (forall r, r <> _field_values (form_editors w self) ->
               dicts w' r = dicts w r) /\
    (forall e, e <> self -> form_editors w' e = form_editors w e) /\
    managers (caretakers w') = managers (caretakers w) /\
    next_ref (caretakers w') = next_ref (caretakers w).
Proof.
  induction changes as [|[f v] rest IH]; intros self w.
  - exists w. cbn. repeat split.
  - destruct (update_field_spec self f v w) as [w1 [E1 [Hf1 [Hd1 [He1 [Hm1 Hn1]]]]]].
    destruct (IH self w1) as [w2 [E2 [Hf2 [Hd2 [Hr2 [He2 [Hm2 Hn2]]]]]]].
    exists w2. split.
    { cbn [update_fields]. unfold bind. rewrite E1. exact E2. }
    split; [congruence|]. split.
    { rewrite Hd2, (fields_after_update self f v w w1 Hf1 Hd1). reflexivity. }
    split.
    { intros r Hr. rewrite Hr2 by congruence. rewrite Hd1. now apply upd_other. }
    split; [intros e He; now rewrite He2, He1|]. split; congruence.
Qed.

Lemma createMemento_spec (self : ref) (w : World) :
  exists w',
    createMemento self w = Ok (FormState_init (fields w self)) w' /\
    dicts w' = dicts w /\ form_editors w' = form_editors w /\
    managers (caretakers w') = managers (caretakers w) /\
    next_ref (caretakers w') = next_ref (caretakers w).
Proof. run_form. cbn. eexists. repeat split. Qed.

Lemma restoreMemento_spec (self : ref) (m : FormState) (w : World) :
  exists w',
    restoreMemento repr_dict self m w = Ok tt w' /\
    _field_values (form_editors w' self) = next_ref (caretakers w) /\
    dicts w' = upd (dicts w) (next_ref (caretakers w)) (get_saved_state m) /\
    (forall e, e <> self -> form_editors w' e = form_editors w e) /\
    managers (caretakers w') = managers (caretakers w) /\
    next_ref (caretakers w') = S (next_ref (caretakers w)).
Proof.
  run_form. cbn. rewrite !upd_same. cbn.
  eexists. split; [reflexivity|]. cbn. rewrite upd_same. cbn.
  repeat split. intros e He. now rewrite !upd_other.
Qed.

Lemma save_state_spec (history : ref) (m : FormState) (w : World) :
  exists w',
    save_state history m w = Ok tt w' /\
    dicts w' = dicts w /\ form_editors w' = form_editors w /\
    _history (managers (caretakers w') history)
      = append (_history (managers (caretakers w) history)) m /\
    next_ref (caretakers w') = next_ref (caretakers w).
Proof.
  run_form. cbn. rewrite !upd_same. cbn.
  eexists. split; [reflexivity|]. cbn. rewrite upd_same. repeat split.
Qed.

End WithRepr.
End OriginatorFacts.

Module OriginatorProperties.
Import Memento FormEditing PythonFacts MementoProperties OriginatorFacts.

Section WithRepr.
Variable repr_dict : Dict -> string.

Lemma saved_state_of_snapshot (d : Dict) :
  get_saved_state (FormState_init d) = d.
Proof. reflexivity. Qed.

Lemma snapshot_spec (history editor : ref) (w : World) :
  exists w',
    snapshot history editor w = Ok tt w' /\
    dicts w' = dicts w /\ form_editors w' = form_editors w /\
    _history (managers (caretakers w') history)
      = append (_history (managers (caretakers w) history))
          (FormState_init (fields w editor)) /\
    next_ref (caretakers w') = next_ref (caretakers w).
Proof.
  destruct (createMemento_spec editor w) as [w1 [E1 [Hd1 [He1 [Hm1 Hn1]]]]].
  destruct (save_state_spec history (FormState_init (fields w editor)) w1)
    as [w2 [E2 [Hd2 [He2 [Hh2 Hn2]]]]].
  exists w2. split.
  { unfold snapshot, bind. rewrite E1. exact E2. }
  repeat split; congruence.
Qed.

Lemma undo_lifted (history : ref) (w : World) (r : option FormState)
    (c : Memento.World) :
  Memento.undo history (caretakers w) = Ok r c ->
  FormEditing.undo history w
  = Ok r {| caretakers := c; dicts := dicts w;
            form_editors := form_editors w |}.
Proof. intros H. unfold FormEditing.undo, lift_caretaker. now rewrite H. Qed.

(** X12.  After [update_field(f, v)] the editor's dict maps [f] to [v] and
    every other field to what it had; a field that existed keeps its place
    among the keys, a new one goes last, and the keys stay distinct. *)
Theorem update_field_sets_field (self : ref) (f v : string) (w : World) :
  exists w',
    update_field repr_dict self f v w = Ok tt w' /\
    dict_get (fields w' self) f = Some v /\
    (forall g, g <> f -> dict_get (fields w' self) g = dict_get (fields w self) g) /\
    keys (fields w' self)
      = match dict_get (fields w self) f with
        | Some _ => keys (fields w self)
        | None => (keys (fields w self) ++ [f])%list
        end /\
    (NoDup (keys (fields w self)) -> NoDup (keys (fields w' self))).
Proof.
  destruct (update_field_spec repr_dict self f v w) as [w' [E [Hf [Hd _]]]].
  exists w'. split; [exact E|].
  rewrite (fields_after_update self f v w w' Hf Hd).
  split; [apply dict_get_set_same|].
  split; [intros g Hg; now apply dict_get_set_other|].
  split; [|apply keys_set_nodup].
  destruct (dict_get (fields w self) f) eqn:Eg.
  - apply keys_set_present. congruence.
  - now apply keys_set_absent.
Qed.

(** X13.  A memento taken from the editor brings back, on [restoreMemento],
    exactly the fields of the moment it was taken, whatever [update_field]
    calls came in between. *)
Theorem restore_after_changes (self : ref) (changes : list (string * string))
    (w : World) :
  exists w',
    (m <- createMemento self ;;
     update_fields repr_dict self changes ;;
     restoreMemento repr_dict self m) w = Ok tt w' /\
    fields w' self = fields w self.
Proof.
  destruct (createMemento_spec self w) as [w1 [E1 _]].
  destruct (update_fields_spec repr_dict changes self w1) as [w2 [E2 _]].
  destruct (restoreMemento_spec repr_dict self (FormState_init (fields w self)) w2)
    as [w3 [E3 [Hf3 [Hd3 _]]]].
  exists w3. split.
  { unfold bind. rewrite E1, E2. exact E3. }
  unfold fields at 1. now rewrite Hf3, Hd3, upd_same.
Qed.

(** X14.  A new editor keeps the very dict it was given: [update_field]
    changes the caller's dict, and the [state] property hands out that same
    dict object. *)
Theorem editor_shares_initial_dict (initial_values : ref) (f v : string)
    (w : World) :
  exists w',
    (self <- FormEditor_init initial_values ;;
     update_field repr_dict self f v ;;
     state self) w = Ok initial_values w' /\
    dicts w' initial_values = dict_set (dicts w initial_values) f v.
Proof.
  run_form. cbn. rewrite ?upd_same. cbn. rewrite ?upd_same. cbn.
  eexists. split; [reflexivity|]. cbn. now rewrite ?upd_same.
Qed.

(** X15.  [restoreMemento] gives the editor a new dict object: later
    [update_field] calls no longer change the dict the editor held before,
    and work on the restored fields. *)
Theorem restore_takes_new_dict (self : ref) (m : FormState)
    (changes : list (string * string)) (w : World) :
  (_field_values (form_editors w self) < next_ref (caretakers w))%nat ->
  exists w',
    (restoreMemento repr_dict self m ;;
     update_fields repr_dict self changes) w = Ok tt w' /\
    dicts w' (_field_values (form_editors w self))
      = dicts w (_field_values (form_editors w self)) /\
    fields w' self = dict_set_all (get_saved_state m) changes.
Proof.
  intros Hold.
  destruct (restoreMemento_spec repr_dict self m w) as [w1 [E1 [Hf1 [Hd1 _]]]].
  destruct (update_fields_spec repr_dict changes self w1)
    as [w2 [E2 [_ [Hf2 [Hr2 _]]]]].
  exists w2. split.
  { unfold bind. rewrite E1. exact E2. }
  split.
  - rewrite Hr2 by (rewrite Hf1; lia). rewrite Hd1. apply upd_other. lia.
  - rewrite Hf2. unfold fields. now rewrite Hf1, Hd1, upd_same.
Qed.


(** X16.  The script's pattern: snapshot, changes, snapshot, more changes,
    then [history.undo()] and [restoreMemento] of its result.  The editor is
    back at the fields of the first of the two snapshots, and that snapshot
    is now the last of the history. *)
Theorem undo_restores_previous_snapshot (history editor : ref)
    (changes1 changes2 : list (string * string)) (w : World) :
  exists w',
    (snapshot history editor ;;
     update_fields repr_dict editor changes1 ;;
     snapshot history editor ;;
     update_fields repr_dict editor changes2 ;;
     undo_and_restore repr_dict history editor) w = Ok tt w' /\
    fields w' editor = fields w editor /\
    _history (managers (caretakers w') history)
      = append (_history (managers (caretakers w) history))
          (FormState_init (fields w editor)).
Proof.
  destruct (snapshot_spec history editor w) as [w1 [E1 [_ [_ [Hh1 _]]]]].
  destruct (update_fields_spec repr_dict changes1 editor w1)
    as [w2 [E2 [_ [_ [_ [_ [Hm2 _]]]]]]].
  destruct (snapshot_spec history editor w2) as [w3 [E3 [_ [_ [Hh3 _]]]]].
  destruct (update_fields_spec repr_dict changes2 editor w3)
    as [w4 [E4 [_ [_ [_ [_ [Hm4 _]]]]]]].
  set (m1 := FormState_init (fields w editor)) in *.
  set (m2 := FormState_init (fields w2 editor)) in *.
  set (h0 := _history (managers (caretakers w) history)) in *.
  assert (Hh4 : _history (managers (caretakers w4) history)
                = (h0 ++ [m1; m2])%list).
  { rewrite Hm4, Hh3, Hm2, Hh1. unfold append. now rewrite <- app_assoc. }
  destruct (undo_two_or_more history (caretakers w4) h0 m1 m2 Hh4)
    as [c5 [E5 [Hh5 _]]].
  pose proof (undo_lifted history w4 _ _ E5) as E5'.
  match type of E5' with _ = Ok _ ?w5 =>
    destruct (restoreMemento_spec repr_dict editor m1 w5)
      as [w6 [E6 [Hf6 [Hd6 [_ [Hm6 _]]]]]] end.
  exists w6. split.
  { unfold bind. rewrite E1, E2, E3, E4.
    unfold undo_and_restore, bind. rewrite E5'. exact E6. }
  split.
  - unfold fields at 1. now rewrite Hf6, Hd6, upd_same.
  - rewrite Hm6. cbn [caretakers]. exact Hh5.
Qed.

(** X17.  With a single snapshot in the history, [history.undo()] returns
    [None] and the client restores nothing: the changes made since the
    snapshot stay. *)
Theorem single_snapshot_not_undone (history editor : ref)
    (changes : list (string * string)) (w : World) :
  _history (managers (caretakers w) history) = [] ->
  exists w',
    (snapshot history editor ;;
     update_fields repr_dict editor changes ;;
     undo_and_restore repr_dict history editor) w = Ok tt w' /\
    fields w' editor = dict_set_all (fields w editor) changes /\
    _history (managers (caretakers w') history)
      = [FormState_init (fields w editor)].
Proof.
  intros Hempty.
  destruct (snapshot_spec history editor w) as [w1 [E1 [Hd1 [He1 [Hh1 _]]]]].
  destruct (update_fields_spec repr_dict changes editor w1)
    as [w2 [E2 [_ [Hf2 [_ [_ [Hm2 _]]]]]]].
  rewrite Hempty in Hh1. cbn in Hh1.
  destruct (undo_short history (caretakers w2)) as [c3 [E3 [Hm3 _]]].
  { rewrite Hm2, Hh1. simpl. lia. }
  pose proof (undo_lifted history w2 _ _ E3) as E3'.
  eexists. split.
  { unfold bind. rewrite E1, E2.
    unfold undo_and_restore, bind. rewrite E3'. reflexivity. }
  split.
  - unfold fields at 1. cbn [dicts form_editors]. fold (fields w2 editor).
    rewrite Hf2. unfold fields. now rewrite Hd1, He1.
  - cbn [caretakers]. now rewrite Hm3, Hm2.
Qed.

End WithRepr.

Lemma restore_takes_new_dict_witness :
  exists w',
    (restoreMemento keys_only 1%nat snapshot_bob ;;
     update_fields keys_only 1%nat [("name", "Robert")]) sample_world
      = Ok tt w' /\
    dicts w' 0%nat = dicts sample_world 0%nat /\
    fields w' 1%nat
      = dict_set_all (get_saved_state snapshot_bob) [("name", "Robert")].
Proof.
  apply (restore_takes_new_dict keys_only 1%nat snapshot_bob
           [("name", "Robert")] sample_world).
  vm_compute. lia.
Defined.

Lemma single_snapshot_not_undone_witness :
  exists w',
    (snapshot 2%nat 1%nat ;;
     update_fields keys_only 1%nat [("name", "Bob")] ;;
     undo_and_restore keys_only 2%nat 1%nat) sample_world = Ok tt w' /\
    fields w' 1%nat
      = dict_set_all (fields sample_world 1%nat) [("name", "Bob")] /\
    _history (managers (caretakers w') 2%nat)
      = [FormState_init (fields sample_world 1%nat)].
Proof.
  apply (single_snapshot_not_undone keys_only 2%nat 1%nat
           [("name", "Bob")] sample_world).
  reflexivity.
Defined.

End OriginatorProperties.
